(** * useFlyToTarget: the fly-to-target animation hook

    A shallow embedding of the [useFlyToTarget] hook and of the properties
    its specification states.  The repository holds the hook twice: the
    file with [targetPosition] (also embedded in [Sandbox-demo.tsx]), which
    is the one modelled here, and an older file that names the motion
    parameters [duration] and [ease] and always aims at the centre of the
    target ([targetOfCenters]); from [onStart] on the two are the same code.

    The hook is written once, over an interface of JavaScript numbers, and
    is run at two instances:
    - [float]: IEEE-754 binary64, the numbers the JavaScript engine computes
      with; every definition is executable there;
    - [xreal]: real numbers extended with [+Infinity], [-Infinity] and
      [NaN], with exact arithmetic on the finite part (rounding, overflow
      and the sign of zero are abstracted away).  The theorems that speak of
      every point or every configuration value are stated at this instance.

    Effects are explicit: the hook runs in a state-passing monad over a
    world that holds [activeAnimationsRef.current] and the trace of the calls
    that leave the hook (console, callbacks, GSAP). *)

From Stdlib Require Import ZArith QArith Reals Lra Lia List String Bool Sorted.
From Stdlib Require PrimFloat Uint63.
Import ListNotations.

Set Implicit Arguments.

(** ** JavaScript numbers *)

Declare Scope js_scope.
Delimit Scope js_scope with js.

Class JsNumber (T : Type) : Type := {
  lit : Q -> T;               (* a numeric literal of the source text *)
  nadd : T -> T -> T;
  nsub : T -> T -> T;
  nmul : T -> T -> T;
  ndiv : T -> T -> T;
  nneg : T -> T;
  Math_sqrt : T -> T;
  strictNe : T -> T -> bool   (* [a !== b] *)
}.

Infix "+" := nadd : js_scope.
Infix "-" := nsub : js_scope.
Infix "*" := nmul : js_scope.
Infix "/" := ndiv : js_scope.
Notation "- a" := (nneg a) : js_scope.
Infix "!==" := strictNe (at level 70, no associativity) : js_scope.

(** *** Binary64: the numbers of the JavaScript engine *)

Module F64.

Definition ofZ (z : Z) : PrimFloat.float :=
  match z with
  | Z0 => PrimFloat.zero
  | Zpos _ => PrimFloat.of_uint63 (Uint63.of_Z z)
  | Zneg p => PrimFloat.opp (PrimFloat.of_uint63 (Uint63.of_Z (Zpos p)))
  end.

(** A decimal literal [n/d] denotes the double nearest to it.  Numerator and
    denominator of the literals of this program are exactly representable,
    and IEEE division is correctly rounded, so the quotient is that double. *)
Definition ofQ (q : Q) : PrimFloat.float :=
  PrimFloat.div (ofZ (Qnum q)) (ofZ (Zpos (Qden q))).

End F64.

#[export] Instance JsNumber_float : JsNumber PrimFloat.float := {|
  lit := F64.ofQ;
  nadd := PrimFloat.add;
  nsub := PrimFloat.sub;
  nmul := PrimFloat.mul;
  ndiv := PrimFloat.div;
  nneg := PrimFloat.opp;
  Math_sqrt := PrimFloat.sqrt;
  strictNe := fun a b => negb (PrimFloat.eqb a b)
|}.

(** *** Extended reals: exact arithmetic with the IEEE special values *)

Inductive xreal : Type :=
| Fin (r : R)
| PInf
| NInf
| NaN.

Module XReal.

Definition add (a b : xreal) : xreal :=
  match a, b with
  | NaN, _ | _, NaN => NaN
  | Fin x, Fin y => Fin (x + y)
  | PInf, NInf | NInf, PInf => NaN
  | PInf, _ | _, PInf => PInf
  | NInf, _ | _, NInf => NInf
  end.

Definition opp (a : xreal) : xreal :=
  match a with
  | Fin x => Fin (- x)
  | PInf => NInf
  | NInf => PInf
  | NaN => NaN
  end.

Definition sub (a b : xreal) : xreal := add a (opp b).

(** [inf * x]: the sign of [x] decides, and [inf * 0] is [NaN]. *)
Definition scaleInf (inf : xreal) (x : R) : xreal :=
  if Rlt_dec 0 x then inf
  else if Rlt_dec x 0 then opp inf
  else NaN.

Definition mul (a b : xreal) : xreal :=
  match a, b with
  | NaN, _ | _, NaN => NaN
  | Fin x, Fin y => Fin (x * y)
  | Fin x, PInf | PInf, Fin x => scaleInf PInf x
  | Fin x, NInf | NInf, Fin x => scaleInf NInf x
  | PInf, PInf | NInf, NInf => PInf
  | PInf, NInf | NInf, PInf => NInf
  end.

(** Division by zero does not fault: [0/0] is [NaN] and [x/0] is an
    infinity (the zero divisor is read as [+0]). *)
Definition div (a b : xreal) : xreal :=
  match a, b with
  | NaN, _ | _, NaN => NaN
  | Fin x, Fin y =>
      if Req_dec_T y 0 then scaleInf PInf x else Fin (x / y)
  | Fin _, PInf | Fin _, NInf => Fin 0
  | PInf, Fin y => if Rle_dec 0 y then PInf else NInf
  | NInf, Fin y => if Rle_dec 0 y then NInf else PInf
  | PInf, PInf | PInf, NInf | NInf, PInf | NInf, NInf => NaN
  end.

Definition sqrt (a : xreal) : xreal :=
  match a with
  | Fin x => if Rlt_dec x 0 then NaN else Fin (R_sqrt.sqrt x)
  | PInf => PInf
  | NInf | NaN => NaN
  end.

Definition ne (a b : xreal) : bool :=
  match a, b with
  | Fin x, Fin y => if Req_dec_T x y then false else true
  | PInf, PInf | NInf, NInf => false
  | _, _ => true
  end.

Definition isNaN (a : xreal) : bool :=
  match a with NaN => true | _ => false end.

End XReal.

#[export] Instance JsNumber_xreal : JsNumber xreal := {|
  lit := fun q => Fin (Q2R q);
  nadd := XReal.add;
  nsub := XReal.sub;
  nmul := XReal.mul;
  ndiv := XReal.div;
  nneg := XReal.opp;
  Math_sqrt := XReal.sqrt;
  strictNe := XReal.ne
|}.

(** ** The data the hook works on *)

Section Hook.

Context {T : Type} `{JsNumber T}.
Local Open Scope js_scope.
Local Open Scope string_scope.

Record Point : Type := { p_x : T; p_y : T }.

(** [DOMRect], as [getBoundingClientRect] returns it (screen space). *)
Record DOMRect : Type := {
  rect_left : T;
  rect_top : T;
  rect_width : T;
  rect_height : T
}.

(** What the hook reads of an element: its identity, its bounding box and
    the translation [gsap.getProperty(el, 'x' | 'y')] reports. *)
Record HTMLElement : Type := {
  el_id : nat;
  getBoundingClientRect : DOMRect;
  getProperty_x : T;
  getProperty_y : T
}.

Inductive PositionType : Type :=
| center
| topLeft
| topCenter
| topRight
| leftCenter
| rightCenter
| bottomLeft
| bottomCenter
| bottomRight.

(** User callbacks are opaque: the model records that one is invoked. *)
Inductive Callback : Type :=
| noop                      (* the default [() => {}] *)
| userCallback (id : nat).

(** [FlyToTargetConfig]: every key is optional ([None]: key absent). *)
Record FlyToTargetConfig : Type := {
  opt_motionDuration : option T;
  opt_motionEase : option string;
  opt_swoopAmount : option T;
  opt_targetPosition : option PositionType;
  opt_targetPositionOffset : option Point;
  opt_scale : option bool;
  opt_grabScale : option T;
  opt_scaleStartDelay : option T;
  opt_scaleUpDuration : option T;
  opt_scaleUpEase : option string;
  opt_scalePeak : option T;
  opt_scalePause : option T;
  opt_scaleDownDuration : option T;
  opt_scaleDownEase : option string;
  opt_scaleTarget : option T;
  opt_enableShadow : option bool;
  opt_baseShadowBlur : option T;
  opt_onComplete : option Callback;
  opt_onStart : option Callback
}.

(** [Required<FlyToTargetConfig>]. *)
Record Config : Type := {
  motionDuration : T;
  motionEase : string;
  swoopAmount : T;
  targetPosition : PositionType;
  targetPositionOffset : Point;
  scale : bool;
  grabScale : T;
  scaleStartDelay : T;
  scaleUpDuration : T;
  scaleUpEase : string;
  scalePeak : T;
  scalePause : T;
  scaleDownDuration : T;
  scaleDownEase : string;
  scaleTarget : T;
  enableShadow : bool;
  baseShadowBlur : T;
  onComplete : Callback;
  onStart : Callback
}.

Definition DEFAULT_CONFIG : Config := {|
  motionDuration := lit 0.45;
  motionEase := "power3.out";
  swoopAmount := lit (-100);
  targetPosition := center;
  targetPositionOffset := {| p_x := lit 0; p_y := lit 0 |};
  scale := true;
  grabScale := lit 1.2;
  scaleStartDelay := lit 0;
  scaleUpDuration := lit 0.2;
  scaleUpEase := "power3.in";
  scalePeak := lit 2.5;
  scalePause := lit 0.15;
  scaleDownDuration := lit 0.1;
  scaleDownEase := "none";
  scaleTarget := lit 1.0;
  enableShadow := true;
  baseShadowBlur := lit 4;
  onComplete := noop;
  onStart := noop
|}.

(** The empty user configuration [{}], the default of the third argument. *)
Definition emptyConfig : FlyToTargetConfig := {|
  opt_motionDuration := None; opt_motionEase := None;
  opt_swoopAmount := None; opt_targetPosition := None;
  opt_targetPositionOffset := None; opt_scale := None;
  opt_grabScale := None; opt_scaleStartDelay := None;
  opt_scaleUpDuration := None; opt_scaleUpEase := None;
  opt_scalePeak := None; opt_scalePause := None;
  opt_scaleDownDuration := None; opt_scaleDownEase := None;
  opt_scaleTarget := None; opt_enableShadow := None;
  opt_baseShadowBlur := None; opt_onComplete := None; opt_onStart := None
|}.

Definition orDefault {A : Type} (d : A) (o : option A) : A :=
  match o with Some v => v | None => d end.

(** [{ ...defaults, ...userConfig }]: a key of [userConfig] wins. *)
Definition spread (defaults : Config) (userConfig : FlyToTargetConfig) : Config := {|
  motionDuration := orDefault (motionDuration defaults) (opt_motionDuration userConfig);
  motionEase := orDefault (motionEase defaults) (opt_motionEase userConfig);
  swoopAmount := orDefault (swoopAmount defaults) (opt_swoopAmount userConfig);
  targetPosition := orDefault (targetPosition defaults) (opt_targetPosition userConfig);
  targetPositionOffset :=
    orDefault (targetPositionOffset defaults) (opt_targetPositionOffset userConfig);
  scale := orDefault (scale defaults) (opt_scale userConfig);
  grabScale := orDefault (grabScale defaults) (opt_grabScale userConfig);
  scaleStartDelay := orDefault (scaleStartDelay defaults) (opt_scaleStartDelay userConfig);
  scaleUpDuration := orDefault (scaleUpDuration defaults) (opt_scaleUpDuration userConfig);
  scaleUpEase := orDefault (scaleUpEase defaults) (opt_scaleUpEase userConfig);
  scalePeak := orDefault (scalePeak defaults) (opt_scalePeak userConfig);
  scalePause := orDefault (scalePause defaults) (opt_scalePause userConfig);
  scaleDownDuration :=
    orDefault (scaleDownDuration defaults) (opt_scaleDownDuration userConfig);
  scaleDownEase := orDefault (scaleDownEase defaults) (opt_scaleDownEase userConfig);
  scaleTarget := orDefault (scaleTarget defaults) (opt_scaleTarget userConfig);
  enableShadow := orDefault (enableShadow defaults) (opt_enableShadow userConfig);
  baseShadowBlur := orDefault (baseShadowBlur defaults) (opt_baseShadowBlur userConfig);
  onComplete := orDefault (onComplete defaults) (opt_onComplete userConfig);
  onStart := orDefault (onStart defaults) (opt_onStart userConfig)
|}.

(** ** What is handed to the animation engine *)

(** The CSS value [`${sh_x}px ${sh_y}px ${sh_blur}px rgba(0,0,0,${sh_alpha})`]. *)
Record BoxShadow : Type := {
  sh_x : T;
  sh_y : T;
  sh_blur : T;
  sh_alpha : T
}.

Record MotionPath : Type := {
  path : list Point;
  curviness : T;
  resolution : T
}.

(** [gsap.TweenVars]: an object with the keys this hook writes. *)
Record TweenVars : Type := {
  v_duration : option T;
  v_ease : option string;
  v_delay : option T;
  v_x : option T;
  v_y : option T;
  v_motionPath : option MotionPath;
  v_scale : option T;
  v_boxShadow : option BoxShadow
}.

Definition noVars : TweenVars := {|
  v_duration := None; v_ease := None; v_delay := None; v_x := None;
  v_y := None; v_motionPath := None; v_scale := None; v_boxShadow := None
|}.

Definition set_x (v : TweenVars) (a : T) : TweenVars := {|
  v_duration := v_duration v; v_ease := v_ease v; v_delay := v_delay v;
  v_x := Some a; v_y := v_y v; v_motionPath := v_motionPath v;
  v_scale := v_scale v; v_boxShadow := v_boxShadow v
|}.

Definition set_y (v : TweenVars) (a : T) : TweenVars := {|
  v_duration := v_duration v; v_ease := v_ease v; v_delay := v_delay v;
  v_x := v_x v; v_y := Some a; v_motionPath := v_motionPath v;
  v_scale := v_scale v; v_boxShadow := v_boxShadow v
|}.

Definition set_motionPath (v : TweenVars) (m : MotionPath) : TweenVars := {|
  v_duration := v_duration v; v_ease := v_ease v; v_delay := v_delay v;
  v_x := v_x v; v_y := v_y v; v_motionPath := Some m;
  v_scale := v_scale v; v_boxShadow := v_boxShadow v
|}.

Definition set_scale (v : TweenVars) (a : T) : TweenVars := {|
  v_duration := v_duration v; v_ease := v_ease v; v_delay := v_delay v;
  v_x := v_x v; v_y := v_y v; v_motionPath := v_motionPath v;
  v_scale := Some a; v_boxShadow := v_boxShadow v
|}.

Definition set_boxShadow (v : TweenVars) (s : BoxShadow) : TweenVars := {|
  v_duration := v_duration v; v_ease := v_ease v; v_delay := v_delay v;
  v_x := v_x v; v_y := v_y v; v_motionPath := v_motionPath v;
  v_scale := v_scale v; v_boxShadow := Some s
|}.

(** A timeline is an object of the engine; the model keeps its identity. *)
Definition Timeline : Type := nat.

(** The position parameter of [tl.to] / [tl.fromTo].  The hook passes the
    number [0] and the string [`>${offset}`]. *)
Inductive Position : Type :=
| AtTime (t : T)
| AfterPrevious (offset : T).

(** The calls that leave the hook, in the order they are made, and the
    completion the engine reports back. *)
Inductive Event : Type :=
| ConsoleWarn (msg : string)
| Invoke (cb : Callback)
| GsapTimeline (tl : Timeline) (onComplete : Callback)
| GsapSet (target : HTMLElement) (vars : TweenVars)
| TimelineTo (tl : Timeline) (target : HTMLElement) (vars : TweenVars)
    (position : Position)
| TimelineFromTo (tl : Timeline) (target : HTMLElement)
    (fromVars toVars : TweenVars) (position : Position)
| TimelineKill (tl : Timeline)
| TimelineComplete (tl : Timeline).

Record World : Type := {
  activeAnimationsRef : list Timeline;   (* [activeAnimationsRef.current] *)
  timelines : nat;                       (* timelines the engine has created *)
  trace : list Event
}.

(** [useRef([])] on a fresh engine. *)
Definition initial : World :=
  {| activeAnimationsRef := []; timelines := 0; trace := [] |}.

(** *** State passing *)

Definition M (A : Type) : Type := World -> A * World.

Definition ret {A : Type} (a : A) : M A := fun w => (a, w).

Definition bind {A B : Type} (c : M A) (k : A -> M B) : M B :=
  fun w => let (a, w') := c w in k a w'.

Notation "x <- c1 ;; c2" := (bind c1 (fun x => c2))
  (at level 61, c1 at next level, right associativity).
Notation "c1 ;; c2" := (bind c1 (fun _ => c2))
  (at level 61, right associativity).

Definition emit (e : Event) : M unit :=
  fun w => (tt, {| activeAnimationsRef := activeAnimationsRef w;
                   timelines := timelines w;
                   trace := trace w ++ [e] |}).

Definition console_warn (msg : string) : M unit := emit (ConsoleWarn msg).

Definition call (cb : Callback) : M unit := emit (Invoke cb).

(** [gsap.timeline({ onComplete })]: a new timeline object. *)
Definition gsap_timeline (onComplete : Callback) : M Timeline :=
  fun w => (timelines w,
            {| activeAnimationsRef := activeAnimationsRef w;
               timelines := S (timelines w);
               trace := trace w ++ [GsapTimeline (timelines w) onComplete] |}).

Definition gsap_set (target : HTMLElement) (vars : TweenVars) : M unit :=
  emit (GsapSet target vars).

Definition tl_to (tl : Timeline) (target : HTMLElement) (vars : TweenVars)
    (position : Position) : M unit :=
  emit (TimelineTo tl target vars position).

Definition tl_fromTo (tl : Timeline) (target : HTMLElement)
    (fromVars toVars : TweenVars) (position : Position) : M unit :=
  emit (TimelineFromTo tl target fromVars toVars position).

Definition tl_kill (tl : Timeline) : M unit := emit (TimelineKill tl).

Definition getActive : M (list Timeline) := fun w => (activeAnimationsRef w, w).

Definition setActive (l : list Timeline) : M unit :=
  fun w => (tt, {| activeAnimationsRef := l;
                   timelines := timelines w;
                   trace := trace w |}).

(** [array.forEach(f)]. *)
Fixpoint forEach {A : Type} (l : list A) (f : A -> M unit) : M unit :=
  match l with
  | [] => ret tt
  | a :: l' => f a ;; forEach l' f
  end.

(** ** The hook *)

Definition getTargetPoint (config : Config) (rect : DOMRect)
    (position : PositionType) : Point :=
  let xLeft := rect_left rect in
  let xCenter := rect_left rect + rect_width rect / lit 2 in
  let xRight := rect_left rect + rect_width rect in
  let yTop := rect_top rect in
  let yCenter := rect_top rect + rect_height rect / lit 2 in
  let yBottom := rect_top rect + rect_height rect in
  let pos :=
    match position with
    | topLeft => {| p_x := xLeft; p_y := yTop |}
    | topCenter => {| p_x := xCenter; p_y := yTop |}
    | topRight => {| p_x := xRight; p_y := yTop |}
    | leftCenter => {| p_x := xLeft; p_y := yCenter |}
    | rightCenter => {| p_x := xRight; p_y := yCenter |}
    | bottomLeft => {| p_x := xLeft; p_y := yBottom |}
    | bottomCenter => {| p_x := xCenter; p_y := yBottom |}
    | bottomRight => {| p_x := xRight; p_y := yBottom |}
    | center => {| p_x := xCenter; p_y := yCenter |}
    end in
  {| p_x := p_x pos + p_x (targetPositionOffset config);
     p_y := p_y pos + p_y (targetPositionOffset config) |}.

(** Where the element has to go, in the space of its own translation. *)
Definition targetOf (config : Config) (sourceElement targetElement : HTMLElement)
    : Point :=
  let sourceRect := getBoundingClientRect sourceElement in
  let targetRect := getBoundingClientRect targetElement in
  let currentX := getProperty_x sourceElement in
  let currentY := getProperty_y sourceElement in
  let targetPoint := getTargetPoint config targetRect (targetPosition config) in
  let sourceCenter :=
    {| p_x := rect_left sourceRect + rect_width sourceRect / lit 2;
       p_y := rect_top sourceRect + rect_height sourceRect / lit 2 |} in
  let targetX := currentX + (p_x targetPoint - p_x sourceCenter) in
  let targetY := currentY + (p_y targetPoint - p_y sourceCenter) in
  {| p_x := targetX; p_y := targetY |}.

(** The older file of the hook has no [targetPosition]: it aims at the
    centre of the target rectangle, in one expression. *)
Definition targetOfCenters (sourceElement targetElement : HTMLElement) : Point :=
  let sourceRect := getBoundingClientRect sourceElement in
  let targetRect := getBoundingClientRect targetElement in
  let currentX := getProperty_x sourceElement in
  let currentY := getProperty_y sourceElement in
  let targetX :=
    currentX + (rect_left targetRect + rect_width targetRect / lit 2
                - rect_left sourceRect - rect_width sourceRect / lit 2) in
  let targetY :=
    currentY + (rect_top targetRect + rect_height targetRect / lit 2
                - rect_top sourceRect - rect_height sourceRect / lit 2) in
  {| p_x := targetX; p_y := targetY |}.

(** The control point of the curve: the body of the [swoopAmount !== 0]
    branch up to [controlX], [controlY]. *)
Definition controlPoint (currentX currentY targetX targetY swoop : T) : Point :=
  let midX := (currentX + targetX) / lit 2 in
  let midY := (currentY + targetY) / lit 2 in
  let dx := targetX - currentX in
  let dy := targetY - currentY in
  let perpX := - dy in
  let perpY := dx in
  let length := Math_sqrt (perpX * perpX + perpY * perpY) in
  let normalizedPerpX := perpX / length in
  let normalizedPerpY := perpY / length in
  let controlX := midX + normalizedPerpX * swoop in
  let controlY := midY + normalizedPerpY * swoop in
  {| p_x := controlX; p_y := controlY |}.

Definition motionConfig (config : Config) (currentX currentY targetX targetY : T)
    : TweenVars :=
  let motionConfig := {|
    v_duration := Some (motionDuration config);
    v_ease := Some (motionEase config);
    v_delay := None; v_x := None; v_y := None; v_motionPath := None;
    v_scale := None; v_boxShadow := None |} in
  if swoopAmount config !== lit 0 then
    let control := controlPoint currentX currentY targetX targetY (swoopAmount config) in
    set_motionPath motionConfig
      {| path := [ {| p_x := currentX; p_y := currentY |};
                   {| p_x := p_x control; p_y := p_y control |};
                   {| p_x := targetX; p_y := targetY |} ];
         curviness := lit 2;
         resolution := lit 6 |}
  else
    set_y (set_x motionConfig targetX) targetY.

Definition scaleConfig (config : Config) : TweenVars :=
  let scaleConfig := {|
    v_scale := Some (scalePeak config);
    v_delay := Some (scaleStartDelay config);
    v_duration := Some (scaleUpDuration config);
    v_ease := Some (scaleUpEase config);
    v_x := None; v_y := None; v_motionPath := None; v_boxShadow := None |} in
  if enableShadow config then
    let maxBlur := baseShadowBlur config * scalePeak config * lit 0.5 in
    set_boxShadow scaleConfig
      {| sh_x := lit 0; sh_y := lit 2; sh_blur := maxBlur; sh_alpha := lit 0.6 |}
  else scaleConfig.

Definition scaleDownConfig (config : Config) : TweenVars :=
  let scaleDownConfig := {|
    v_delay := Some (scalePause config);
    v_scale := Some (scaleTarget config);
    v_duration := Some (scaleDownDuration config);
    v_ease := Some (scaleDownEase config);
    v_x := None; v_y := None; v_motionPath := None; v_boxShadow := None |} in
  if enableShadow config then
    set_boxShadow scaleDownConfig
      {| sh_x := lit 0; sh_y := lit 0; sh_blur := lit 0; sh_alpha := lit 0.0 |}
  else scaleDownConfig.

Definition flyToTarget (sourceElement targetElement : option HTMLElement)
    (userConfig : FlyToTargetConfig) : M (option Timeline) :=
  match sourceElement, targetElement with
  | Some sourceElement, Some targetElement =>
      let config := spread DEFAULT_CONFIG userConfig in
      let currentX := getProperty_x sourceElement in
      let currentY := getProperty_y sourceElement in
      let target := targetOf config sourceElement targetElement in
      let targetX := p_x target in
      let targetY := p_y target in
      call (onStart config) ;;
      tl <- gsap_timeline (onComplete config) ;;
      tl_to tl sourceElement
        (motionConfig config currentX currentY targetX targetY) (AtTime (lit 0)) ;;
      (if scale config then
         (if enableShadow config then
            let startBlur := baseShadowBlur config * grabScale config in
            gsap_set sourceElement
              (set_boxShadow noVars
                 {| sh_x := lit 0; sh_y := lit 2; sh_blur := startBlur;
                    sh_alpha := lit 0.3 |})
          else ret tt) ;;
         tl_fromTo tl sourceElement
           (set_scale noVars (grabScale config))
           (scaleConfig config) (AtTime (lit 0)) ;;
         tl_to tl sourceElement (scaleDownConfig config)
           (AfterPrevious (scaleStartDelay config + scaleUpDuration config))
       else
         gsap_set sourceElement
           (set_scale noVars (grabScale config))) ;;
      active <- getActive ;;
      setActive (active ++ [tl]) ;;
      ret (Some tl)
  | _, _ =>
      console_warn "useFlyToTarget: source or target element is null" ;;
      ret None
  end.

Definition killAll : M unit :=
  active <- getActive ;;
  forEach active (fun tl => tl_kill tl) ;;
  setActive [].

Definition kill (timeline : option Timeline) : M unit :=
  match timeline with
  | Some timeline =>
      tl_kill timeline ;;
      active <- getActive ;;
      setActive (filter (fun tl => negb (Nat.eqb tl timeline)) active)
  | None => ret tt
  end.

End Hook.

Arguments Point : clear implicits.
Arguments DOMRect : clear implicits.
Arguments HTMLElement : clear implicits.
Arguments FlyToTargetConfig : clear implicits.
Arguments Config : clear implicits.
Arguments BoxShadow : clear implicits.
Arguments MotionPath : clear implicits.
Arguments TweenVars : clear implicits.
Arguments Position : clear implicits.
Arguments Event : clear implicits.
Arguments World : clear implicits.
Arguments M : clear implicits.

(** ** The animation engine, as far as the hook relies on it

    GSAP itself is not part of the repository.  Two of its documented rules
    are needed to read a trace: how a timeline places its children in time,
    and what happens when a timeline has played to its end. *)

Section Engine.

Context {T : Type} `{JsNumber T}.
Local Open Scope js_scope.

(** A child of a timeline: the vars that carry its timing and the position
    parameter it was added with. *)
Record Child : Type := {
  c_vars : TweenVars T;
  c_position : Position T
}.

(** The children of [tl], in the order they were added. *)
Fixpoint children (tl : Timeline) (tr : list (Event T)) : list Child :=
  match tr with
  | [] => []
  | TimelineTo tl' _ vars position :: rest =>
      if Nat.eqb tl' tl
      then {| c_vars := vars; c_position := position |} :: children tl rest
      else children tl rest
  | TimelineFromTo tl' _ _ toVars position :: rest =>
      if Nat.eqb tl' tl
      then {| c_vars := toVars; c_position := position |} :: children tl rest
      else children tl rest
  | _ :: rest => children tl rest
  end.

(** GSAP's placement of a child, after its documentation of the position
    parameter: a number is an absolute time on the timeline; [">"] points
    to the end of the previous animation, i.e. of the most recently added
    child (time 0 when there is none), and [">n"] is [n] seconds past that
    end; the child's own [delay] is added to the insertion point.  A missing
    [delay] is 0 and a missing [duration] is GSAP's default 0.5. *)
Definition startTime (recentEnd : T) (c : Child) : T :=
  let insertion :=
    match c_position c with
    | AtTime t => t
    | AfterPrevious offset => recentEnd + offset
    end in
  insertion + orDefault (lit 0) (v_delay (c_vars c)).

Definition endTime (recentEnd : T) (c : Child) : T :=
  startTime recentEnd c + orDefault (lit 0.5) (v_duration (c_vars c)).

(** Absolute start and end of every child, from the timeline's t = 0. *)
Fixpoint place (recentEnd : T) (cs : list Child) : list (T * T) :=
  match cs with
  | [] => []
  | c :: rest =>
      (startTime recentEnd c, endTime recentEnd c)
        :: place (endTime recentEnd c) rest
  end.

Definition schedule (tl : Timeline) (w : World T) : list (T * T) :=
  place (lit 0) (children tl (trace w)).

(** The callback a timeline was created with. *)
Fixpoint onCompleteOf (tl : Timeline) (tr : list (Event T)) : Callback :=
  match tr with
  | [] => noop
  | GsapTimeline tl' cb :: rest =>
      if Nat.eqb tl' tl then cb else onCompleteOf tl rest
  | _ :: rest => onCompleteOf tl rest
  end.

(** The engine has played [tl] to its end: it calls the timeline's
    [onComplete], which is the user's callback and nothing else. *)
Definition complete (tl : Timeline) : M T unit :=
  fun w =>
    bind (emit (TimelineComplete tl))
         (fun _ => call (onCompleteOf tl (trace w))) w.

(** *** What happened to a timeline, read off the trace *)

Definition isCreation (tl : Timeline) (e : Event T) : bool :=
  match e with GsapTimeline tl' _ => Nat.eqb tl' tl | _ => false end.

Definition isKill (tl : Timeline) (e : Event T) : bool :=
  match e with TimelineKill tl' => Nat.eqb tl' tl | _ => false end.

Definition isCompletion (tl : Timeline) (e : Event T) : bool :=
  match e with TimelineComplete tl' => Nat.eqb tl' tl | _ => false end.

Definition started (tl : Timeline) (w : World T) : bool :=
  existsb (isCreation tl) (trace w).

Definition cancelled (tl : Timeline) (w : World T) : bool :=
  existsb (isKill tl) (trace w).

Definition completed (tl : Timeline) (w : World T) : bool :=
  existsb (isCompletion tl) (trace w).

(** How many times [kill()] was invoked on [tl]. *)
Definition kills (tl : Timeline) (w : World T) : nat :=
  List.length (filter (isKill tl) (trace w)).

Definition live (tl : Timeline) (w : World T) : bool :=
  existsb (Nat.eqb tl) (activeAnimationsRef w).

(** *** Histories of one hook instance *)

Inductive Op : Type :=
| Fly (sourceElement targetElement : option (HTMLElement T))
      (userConfig : FlyToTargetConfig T)
| Kill (timeline : option Timeline)
| KillAll
| Complete (tl : Timeline).

Definition step (w : World T) (op : Op) : World T :=
  match op with
  | Fly s t c => snd (flyToTarget s t c w)
  | Kill tl => snd (kill tl w)
  | KillAll => snd (killAll w)
  | Complete tl => snd (complete tl w)
  end.

Definition run (ops : list Op) (w : World T) : World T :=
  fold_left step ops w.

(** A handle can only be passed around once it exists, and the engine
    reports completion once, for a timeline that is still playing. *)
Definition enabled (w : World T) (op : Op) : bool :=
  match op with
  | Kill (Some tl) => Nat.ltb tl (timelines w)
  | Complete tl =>
      started tl w && negb (completed tl w) && negb (cancelled tl w)
  | _ => true
  end.

Fixpoint valid (w : World T) (ops : list Op) : bool :=
  match ops with
  | [] => true
  | op :: rest => enabled w op && valid (step w op) rest
  end.

End Engine.

Arguments Child : clear implicits.
Arguments Op : clear implicits.

(** ** What the theorems speak about *)

Section Observations.

Context {T : Type} `{JsNumber T}.
Local Open Scope js_scope.

Definition warned (w : World T) : World T := {|
  activeAnimationsRef := activeAnimationsRef w;
  timelines := timelines w;
  trace := trace w ++
    [ConsoleWarn "useFlyToTarget: source or target element is null"%string]
|}.

(** The calls one successful [flyToTarget] makes, on timeline [tl]. *)
Definition flight (config : Config T) (s t : HTMLElement T) (tl : Timeline)
    : list (Event T) :=
  [ Invoke (onStart config);
    GsapTimeline tl (onComplete config);
    TimelineTo tl s
      (motionConfig config (getProperty_x s) (getProperty_y s)
         (p_x (targetOf config s t)) (p_y (targetOf config s t)))
      (AtTime (lit 0)) ]
  ++ (if scale config then
        (if enableShadow config then
           [ GsapSet s
               (set_boxShadow noVars
                  {| sh_x := lit 0; sh_y := lit 2;
                     sh_blur := baseShadowBlur config * grabScale config;
                     sh_alpha := lit 0.3 |}) ]
         else [])
        ++ [ TimelineFromTo tl s (set_scale noVars (grabScale config))
               (scaleConfig config) (AtTime (lit 0));
             TimelineTo tl s (scaleDownConfig config)
               (AfterPrevious (scaleStartDelay config + scaleUpDuration config)) ]
      else [ GsapSet s (set_scale noVars (grabScale config)) ]).

(** What the code maintains: the list holds the timelines this hook has
    created and on which [kill()] has not been called. *)
Definition registered (w : World T) : Prop :=
  (forall tl, live tl w = started tl w && negb (cancelled tl w)) /\
  (forall tl, started tl w = Nat.ltb tl (timelines w)) /\
  (forall tl, cancelled tl w = true -> started tl w = true).

(** The shadows that are set or animated, in the order of the calls. *)
Definition shadowOf (v : TweenVars T) : list (BoxShadow T) :=
  match v_boxShadow v with Some sh => [sh] | None => [] end.

Definition shadows (tr : list (Event T)) : list (BoxShadow T) :=
  flat_map
    (fun e =>
       match e with
       | GsapSet _ v => shadowOf v
       | TimelineTo _ _ v _ => shadowOf v
       | TimelineFromTo _ _ fromVars toVars _ => shadowOf fromVars ++ shadowOf toVars
       | _ => []
       end) tr.

(** The callbacks that are invoked, in order. *)
Definition invocations (tr : list (Event T)) : list Callback :=
  flat_map (fun e => match e with Invoke cb => [cb] | _ => [] end) tr.

(** Handles are numbered by creation: a timeline exists exactly when its
    number is below the engine's count, and the list holds existing
    timelines in the order of their creation. *)
Definition wellNumbered (w : World T) : Prop :=
  (forall tl, started tl w = Nat.ltb tl (timelines w)) /\
  StronglySorted lt (activeAnimationsRef w) /\
  Forall (fun tl => (tl < timelines w)%nat) (activeAnimationsRef w).

End Observations.

(** ** Plane geometry on the reals *)

Section Geometry.

Local Open Scope R_scope.

(** Squared length of the perpendicular [(-dy, dx)] of the displacement. *)
Definition perpSquare (sx sy ex ey : R) : R :=
  - (ey - sy) * - (ey - sy) + (ex - sx) * (ex - sx).

(** The control point as the specification words it: the midpoint, moved
    by [swoop] along the unit perpendicular. *)
Definition midpoint (sx sy ex ey : R) : R * R :=
  ((sx + ex) / 2, (sy + ey) / 2).

Definition unitPerp (sx sy ex ey : R) : R * R :=
  (- (ey - sy) / sqrt (perpSquare sx sy ex ey),
   (ex - sx) / sqrt (perpSquare sx sy ex ey)).

Definition offsetMidpoint (sx sy ex ey swoop : R) : R * R :=
  (fst (midpoint sx sy ex ey) + fst (unitPerp sx sy ex ey) * swoop,
   snd (midpoint sx sy ex ey) + snd (unitPerp sx sy ex ey) * swoop).

Definition distance (a b : R * R) : R :=
  sqrt ((fst a - fst b) * (fst a - fst b) + (snd a - snd b) * (snd a - snd b)).

Definition finPoint (p : R * R) : Point xreal :=
  {| p_x := Fin (fst p); p_y := Fin (snd p) |}.

(** An element all of whose measurements are finite. *)
Definition finElement (id : nat) (l t w h x y : R) : HTMLElement xreal := {|
  el_id := id;
  getBoundingClientRect :=
    {| rect_left := Fin l; rect_top := Fin t;
       rect_width := Fin w; rect_height := Fin h |};
  getProperty_x := Fin x;
  getProperty_y := Fin y
|}.

(** The nine named points of a rectangle as the specification names them:
    the centre, the four corners and the four edge midpoints. *)
Definition anchorOf (position : PositionType) (l t w h : R) : R * R :=
  match position with
  | center => (l + w / 2, t + h / 2)
  | topLeft => (l, t)
  | topCenter => (l + w / 2, t)
  | topRight => (l + w, t)
  | leftCenter => (l, t + h / 2)
  | rightCenter => (l + w, t + h / 2)
  | bottomLeft => (l, t + h)
  | bottomCenter => (l + w / 2, t + h)
  | bottomRight => (l + w, t + h)
  end.

(** The timings on which the placement rule [startTime] is GSAP's own: the
    engine keeps start times to seven decimals and moves the children of a
    timeline when one of them would start before 0, so the rule is exact
    for finite, non-negative multiples of 0.0000001 s. *)
Definition gridTime (x : xreal) : Prop :=
  exists k : Z, (0 <= k)%Z /\ x = Fin (IZR k / 10000000).

Definition gridTimings (config : Config xreal) : Prop :=
  gridTime (motionDuration config) /\
  gridTime (scaleStartDelay config) /\
  gridTime (scaleUpDuration config) /\
  gridTime (scalePause config) /\
  gridTime (scaleDownDuration config).

(** A bounding box all of whose measurements are finite. *)
Definition finRect (l t w h : R) : DOMRect xreal :=
  {| rect_left := Fin l; rect_top := Fin t;
     rect_width := Fin w; rect_height := Fin h |}.

End Geometry.

(** ** Concrete elements and histories for the examples *)

(** An element with bounding box [(l, t, w, h)] and translation [(x, y)]. *)
Definition element {T : Type} `{JsNumber T} (id : nat) (l t w h x y : Q)
    : HTMLElement T := {|
  el_id := id;
  getBoundingClientRect :=
    {| rect_left := lit l; rect_top := lit t;
       rect_width := lit w; rect_height := lit h |};
  getProperty_x := lit x;
  getProperty_y := lit y
|}.

(** A 20 x 20 dart whose centre is at (100, 100) and a 40 x 40 target whose
    centre is at (300, 100); the dart has not been moved yet. *)
Definition dart {T : Type} `{JsNumber T} : HTMLElement T :=
  element 1 90 90 20 20 0 0.

Definition bullseye {T : Type} `{JsNumber T} : HTMLElement T :=
  element 2 280 80 40 40 0 0.

(** A dart that already sits on the bullseye: same centre (300, 100). *)
Definition dartAtTarget {T : Type} `{JsNumber T} : HTMLElement T :=
  element 1 290 90 20 20 200 0.

(** [{ ...c, swoopAmount: a }] and [{ ...c, motionDuration: a }]. *)
Definition withSwoopAmount {T : Type} (c : FlyToTargetConfig T) (a : T)
    : FlyToTargetConfig T := {|
  opt_motionDuration := opt_motionDuration c;
  opt_motionEase := opt_motionEase c;
  opt_swoopAmount := Some a;
  opt_targetPosition := opt_targetPosition c;
  opt_targetPositionOffset := opt_targetPositionOffset c;
  opt_scale := opt_scale c;
  opt_grabScale := opt_grabScale c;
  opt_scaleStartDelay := opt_scaleStartDelay c;
  opt_scaleUpDuration := opt_scaleUpDuration c;
  opt_scaleUpEase := opt_scaleUpEase c;
  opt_scalePeak := opt_scalePeak c;
  opt_scalePause := opt_scalePause c;
  opt_scaleDownDuration := opt_scaleDownDuration c;
  opt_scaleDownEase := opt_scaleDownEase c;
  opt_scaleTarget := opt_scaleTarget c;
  opt_enableShadow := opt_enableShadow c;
  opt_baseShadowBlur := opt_baseShadowBlur c;
  opt_onComplete := opt_onComplete c;
  opt_onStart := opt_onStart c
|}.

Definition withMotionDuration {T : Type} (c : FlyToTargetConfig T) (a : T)
    : FlyToTargetConfig T := {|
  opt_motionDuration := Some a;
  opt_motionEase := opt_motionEase c;
  opt_swoopAmount := opt_swoopAmount c;
  opt_targetPosition := opt_targetPosition c;
  opt_targetPositionOffset := opt_targetPositionOffset c;
  opt_scale := opt_scale c;
  opt_grabScale := opt_grabScale c;
  opt_scaleStartDelay := opt_scaleStartDelay c;
  opt_scaleUpDuration := opt_scaleUpDuration c;
  opt_scaleUpEase := opt_scaleUpEase c;
  opt_scalePeak := opt_scalePeak c;
  opt_scalePause := opt_scalePause c;
  opt_scaleDownDuration := opt_scaleDownDuration c;
  opt_scaleDownEase := opt_scaleDownEase c;
  opt_scaleTarget := opt_scaleTarget c;
  opt_enableShadow := opt_enableShadow c;
  opt_baseShadowBlur := opt_baseShadowBlur c;
  opt_onComplete := opt_onComplete c;
  opt_onStart := opt_onStart c
|}.

(** Binary64, for the runs. *)
Definition F : Type := PrimFloat.float.

(** One flight, played to its end. *)
Definition flownAndCompleted : list (Op F) :=
  [Fly (Some dart) (Some bullseye) emptyConfig; Complete 0%nat].

(** One flight, cancelled through [kill]. *)
Definition flownAndKilled : list (Op F) :=
  [Fly (Some dart) (Some bullseye) emptyConfig; Kill (Some 0%nat)].

(** One flight, cancelled through [killAll]. *)
Definition flownAndAllKilled : list (Op F) :=
  [Fly (Some dart) (Some bullseye) emptyConfig; KillAll].

Ltac js_ops :=
  cbn [nadd nsub nmul ndiv nneg Math_sqrt lit strictNe JsNumber_xreal].

(** ** What one call of the hook does to the world *)

Section Effects.

Context {T : Type} `{JsNumber T}.
Local Open Scope js_scope.

Lemma flyToTarget_run (s t : HTMLElement T) (c : FlyToTargetConfig T) (w : World T) :
  flyToTarget (Some s) (Some t) c w =
  (Some (timelines w),
   {| activeAnimationsRef := activeAnimationsRef w ++ [timelines w];
      timelines := S (timelines w);
      trace := trace w ++ flight (spread DEFAULT_CONFIG c) s t (timelines w) |}).
Proof.
  unfold flyToTarget, flight.
  destruct (scale (spread DEFAULT_CONFIG c)), (enableShadow (spread DEFAULT_CONFIG c));
    cbv [bind call emit gsap_timeline tl_to tl_fromTo gsap_set getActive setActive ret
         activeAnimationsRef timelines trace];
    repeat rewrite <- app_assoc; reflexivity.
Qed.

Lemma flyToTarget_null (s t : option (HTMLElement T)) (c : FlyToTargetConfig T)
    (w : World T) :
  s = None \/ t = None -> flyToTarget s t c w = (None, warned w).
Proof.
  intros [-> | ->]; [| destruct s]; reflexivity.
Qed.

Lemma forEach_kill (l : list Timeline) (w : World T) :
  forEach l (fun tl => tl_kill tl) w =
  (tt, {| activeAnimationsRef := activeAnimationsRef w;
          timelines := timelines w;
          trace := trace w ++ map (@TimelineKill T) l |}).
Proof.
  revert w. induction l as [| tl l IH]; intros w; simpl.
  - rewrite app_nil_r. destruct w; reflexivity.
  - unfold bind, tl_kill, emit at 1. rewrite IH. simpl.
    rewrite <- app_assoc. reflexivity.
Qed.

Lemma killAll_run (w : World T) :
  killAll w =
  (tt, {| activeAnimationsRef := [];
          timelines := timelines w;
          trace := trace w ++ map (@TimelineKill T) (activeAnimationsRef w) |}).
Proof.
  unfold killAll, bind, getActive. rewrite forEach_kill. reflexivity.
Qed.

Lemma kill_run (tl : Timeline) (w : World T) :
  kill (Some tl) w =
  (tt, {| activeAnimationsRef :=
            filter (fun tl' => negb (Nat.eqb tl' tl)) (activeAnimationsRef w);
          timelines := timelines w;
          trace := trace w ++ [TimelineKill tl] |}).
Proof. reflexivity. Qed.

Lemma complete_run (tl : Timeline) (w : World T) :
  complete tl w =
  (tt, {| activeAnimationsRef := activeAnimationsRef w;
          timelines := timelines w;
          trace := trace w ++
            [TimelineComplete tl; Invoke (onCompleteOf tl (trace w))] |}).
Proof.
  unfold complete, bind, emit, call, emit. simpl.
  rewrite <- app_assoc. reflexivity.
Qed.

End Effects.

(** ** The registry of active animations *)

Section Registry.

Context {T : Type} `{JsNumber T}.

Lemma flight_creates (cfg : Config T) (s t : HTMLElement T) (n tl : Timeline) :
  existsb (isCreation tl) (flight cfg s t n) = Nat.eqb n tl.
Proof.
  unfold flight. destruct (scale cfg), (enableShadow cfg); simpl;
    rewrite orb_false_r; reflexivity.
Qed.

Lemma flight_kills_nothing (cfg : Config T) (s t : HTMLElement T) (n tl : Timeline) :
  existsb (isKill tl) (flight cfg s t n) = false.
Proof.
  unfold flight. destruct (scale cfg), (enableShadow cfg); reflexivity.
Qed.

Lemma flight_completes_nothing (cfg : Config T) (s t : HTMLElement T)
    (n tl : Timeline) :
  existsb (isCompletion tl) (flight cfg s t n) = false.
Proof.
  unfold flight. destruct (scale cfg), (enableShadow cfg); reflexivity.
Qed.

Lemma existsb_kills (tl : Timeline) (l : list Timeline) :
  existsb (isKill tl) (map (@TimelineKill T) l) = existsb (Nat.eqb tl) l.
Proof.
  induction l as [| a l IH]; simpl; [reflexivity |].
  rewrite IH, (Nat.eqb_sym a tl). reflexivity.
Qed.

Lemma kills_create_nothing (tl : Timeline) (l : list Timeline) :
  existsb (isCreation tl) (map (@TimelineKill T) l) = false.
Proof. induction l as [| a l IH]; simpl; [reflexivity | exact IH]. Qed.

Lemma existsb_without (tl tl0 : Timeline) (l : list Timeline) :
  existsb (Nat.eqb tl) (filter (fun tl' => negb (Nat.eqb tl' tl0)) l) =
  existsb (Nat.eqb tl) l && negb (Nat.eqb tl tl0).
Proof.
  induction l as [| a l IH]; simpl; [reflexivity |].
  destruct (Nat.eqb_spec a tl0) as [-> | Hne]; simpl; rewrite IH.
  - destruct (Nat.eqb_spec tl tl0); simpl.
    + rewrite !andb_false_r. reflexivity.
    + rewrite andb_true_r. reflexivity.
  - destruct (Nat.eqb_spec tl a) as [-> | Hne']; simpl; [| reflexivity].
    destruct (Nat.eqb_spec a tl0); [contradiction | reflexivity].
Qed.

Lemma registered_initial : registered (@initial T).
Proof. split; [| split]; intros tl; [reflexivity | reflexivity | discriminate]. Qed.

Lemma registered_step (w : World T) (op : Op T) :
  registered w -> enabled w op = true -> registered (step w op).
Proof.
  intros (Hlive & Hstart & Hkill) Hen.
  destruct op as [s t c | [tl0 |] | | tl0]; cbn [step].
  - (* flyToTarget *)
    destruct s as [s |]; [destruct t as [t |] |];
      try (rewrite flyToTarget_null by auto; simpl;
           unfold registered, live, started, cancelled in *; simpl;
           (split; [| split]); intros tl;
           rewrite ?existsb_app; simpl; rewrite ?orb_false_r; auto).
    rewrite flyToTarget_run; simpl.
    assert (Hfresh : cancelled (timelines w) w = false).
    { destruct (cancelled (timelines w) w) eqn:E; [| reflexivity].
      apply Hkill in E. rewrite Hstart in E.
      apply Nat.ltb_lt in E. lia. }
    unfold registered, live, started, cancelled in *; simpl.
    (split; [| split]); intros tl;
      rewrite ?existsb_app, ?flight_creates, ?flight_kills_nothing, ?orb_false_r;
      simpl; rewrite ?orb_false_r.
    + rewrite Hlive. rewrite (Nat.eqb_sym tl).
      destruct (Nat.eqb_spec (timelines w) tl) as [<- | Hne].
      * rewrite Hfresh, !orb_true_r. reflexivity.
      * rewrite !orb_false_r. reflexivity.
    + rewrite Hstart.
      destruct (Nat.eqb_spec (timelines w) tl), (Nat.ltb_spec tl (timelines w)),
        (Nat.ltb_spec tl (S (timelines w))); simpl; try reflexivity; lia.
    + intros E. apply Hkill in E. rewrite E. reflexivity.
  - (* kill(timeline) *)
    simpl in Hen. apply Nat.ltb_lt in Hen.
    unfold registered, live, started, cancelled in *; simpl.
    (split; [| split]); intros tl; rewrite ?existsb_app; simpl; rewrite ?orb_false_r.
    + rewrite existsb_without, Hlive, (Nat.eqb_sym tl0 tl).
      destruct (existsb (isCreation tl) (trace w)),
        (existsb (isKill tl) (trace w)), (Nat.eqb tl tl0); reflexivity.
    + apply Hstart.
    + destruct (Nat.eqb_spec tl0 tl) as [<- | Hne].
      * intros _. rewrite Hstart. apply Nat.ltb_lt. exact Hen.
      * rewrite orb_false_r. apply Hkill.
  - (* kill(null) *)
    repeat split; auto.
  - (* killAll *)
    rewrite killAll_run; simpl.
    unfold registered, live, started, cancelled in *; simpl.
    (split; [| split]); intros tl;
      rewrite ?existsb_app, ?existsb_kills, ?kills_create_nothing, ?orb_false_r.
    + specialize (Hlive tl).
      destruct (existsb (Nat.eqb tl) (activeAnimationsRef w)),
        (existsb (isCreation tl) (trace w)), (existsb (isKill tl) (trace w));
        simpl in *; congruence.
    + apply Hstart.
    + specialize (Hlive tl). specialize (Hkill tl).
      destruct (existsb (Nat.eqb tl) (activeAnimationsRef w)),
        (existsb (isCreation tl) (trace w)), (existsb (isKill tl) (trace w));
        simpl in *; auto; congruence.
  - (* the engine reports completion *)
    rewrite complete_run; simpl.
    unfold registered, live, started, cancelled in *; simpl.
    (split; [| split]); intros tl; rewrite ?existsb_app; simpl; rewrite ?orb_false_r; auto.
Qed.

Lemma registered_run (ops : list (Op T)) (w : World T) :
  registered w -> valid w ops = true -> registered (run ops w).
Proof.
  revert w. induction ops as [| op ops IH]; intros w Hw Hv; simpl in *.
  - exact Hw.
  - apply andb_prop in Hv as [Hen Hv].
    apply IH; [apply registered_step |]; assumption.
Qed.

(** Completion leaves the list as it is: the [onComplete] handed to
    [gsap.timeline] is the user's callback, and it is all that runs. *)
Lemma complete_keeps_activeAnimations (tl : Timeline) (w : World T) :
  activeAnimationsRef (snd (complete tl w)) = activeAnimationsRef w.
Proof. rewrite complete_run. reflexivity. Qed.

End Registry.

(** ** Properties of the registry and of the entry point *)

Section EntryPoint.

Context {T : Type} `{JsNumber T}.

Lemma filter_absent (tl : Timeline) (l : list Timeline) :
  existsb (Nat.eqb tl) l = false ->
  filter (fun tl' => negb (Nat.eqb tl' tl)) l = l.
Proof.
  induction l as [| a l IH]; simpl; [reflexivity |].
  intros E. apply orb_false_elim in E as [Ea El].
  rewrite Nat.eqb_sym in Ea. rewrite Ea. simpl. rewrite IH by exact El.
  reflexivity.
Qed.

(** C7: when the source or the target element is null, [flyToTarget]
    returns null and does nothing but warn on the console: no callback is
    invoked, no timeline is created or filled, and the list of active
    animations is the one it was. *)
Theorem flyToTarget_null_element (e : option (HTMLElement T))
    (c : FlyToTargetConfig T) (w : World T) :
  flyToTarget None e c w = (None, warned w) /\
  flyToTarget e None c w = (None, warned w) /\
  activeAnimationsRef (warned w) = activeAnimationsRef w /\
  timelines (warned w) = timelines w /\
  trace (warned w) =
    trace w ++ [ConsoleWarn "useFlyToTarget: source or target element is null"].
Proof.
  repeat split; apply flyToTarget_null; auto.
Qed.

(** C8, as amended: [kill] invokes [kill()] on every non-null timeline it is
    given, whether or not the list holds it, and drops it from the list; a
    timeline that is not in the list leaves the list as it is; [kill(null)]
    does nothing at all. *)
Theorem kill_cancels_any_timeline (tl : Timeline) (w : World T) :
  kill None w = (tt, w) /\
  trace (snd (kill (Some tl) w)) = trace w ++ [TimelineKill tl] /\
  kills tl (snd (kill (Some tl) w)) = S (kills tl w) /\
  live tl (snd (kill (Some tl) w)) = false /\
  (forall tl', live tl' (snd (kill (Some tl) w)) =
               live tl' w && negb (Nat.eqb tl' tl)) /\
  activeAnimationsRef (snd (kill (Some tl) w)) =
    (if live tl w
     then filter (fun tl' => negb (Nat.eqb tl' tl)) (activeAnimationsRef w)
     else activeAnimationsRef w) /\
  timelines (snd (kill (Some tl) w)) = timelines w.
Proof.
  rewrite kill_run. cbn [snd trace activeAnimationsRef timelines].
  split; [reflexivity |]. split; [reflexivity |].
  split.
  { unfold kills. cbn [trace]. rewrite filter_app, length_app. simpl.
    rewrite Nat.eqb_refl. simpl. lia. }
  assert (Hl : forall tl', live tl'
      {| activeAnimationsRef :=
           filter (fun tl'0 => negb (Nat.eqb tl'0 tl)) (activeAnimationsRef w);
         timelines := timelines w;
         trace := trace w ++ [TimelineKill tl] |} =
      live tl' w && negb (Nat.eqb tl' tl)).
  { intros tl'. unfold live. cbn [activeAnimationsRef]. apply existsb_without. }
  split.
  { rewrite Hl, Nat.eqb_refl. apply andb_false_r. }
  split; [exact Hl |].
  split; [| reflexivity].
  destruct (live tl w) eqn:E; [reflexivity |].
  apply filter_absent. exact E.
Qed.

(** C9, as amended: [killAll] invokes [kill()] on every timeline of the
    list, in order, and leaves the list empty; on an empty list it changes
    nothing; a second [killAll] changes nothing; a later [kill] on a
    timeline leaves the list empty but does invoke [kill()] on it again. *)
Theorem killAll_cancels_all_and_clears (w : World T) :
  trace (snd (killAll w)) =
    trace w ++ map (@TimelineKill T) (activeAnimationsRef w) /\
  activeAnimationsRef (snd (killAll w)) = [] /\
  timelines (snd (killAll w)) = timelines w /\
  (forall n (tr : list (Event T)),
     killAll {| activeAnimationsRef := []; timelines := n; trace := tr |} =
     (tt, {| activeAnimationsRef := []; timelines := n; trace := tr |})) /\
  killAll (snd (killAll w)) = (tt, snd (killAll w)) /\
  (forall tl,
     activeAnimationsRef (snd (kill (Some tl) (snd (killAll w)))) = [] /\
     trace (snd (kill (Some tl) (snd (killAll w)))) =
       trace (snd (killAll w)) ++ [TimelineKill tl]).
Proof.
  assert (Hempty : forall n (tr : list (Event T)),
     killAll {| activeAnimationsRef := []; timelines := n; trace := tr |} =
     (tt, {| activeAnimationsRef := []; timelines := n; trace := tr |})).
  { intros n tr. rewrite killAll_run. simpl. rewrite app_nil_r. reflexivity. }
  rewrite killAll_run. cbn [snd trace activeAnimationsRef timelines].
  repeat split; try apply Hempty.
Qed.

(** X21: along every history of one hook instance in which [kill] is given
    null or a timeline that exists, and completion is reported only for a
    timeline that is still playing, a timeline is in the list exactly when
    the hook has created it and [kill()] has not been invoked on it through
    [kill] or [killAll]; the engine's report of completion does not touch
    the list. *)
Theorem live_iff_started_and_not_cancelled (ops : list (Op T)) :
  valid initial ops = true ->
  (forall tl, live tl (run ops initial) = true <->
              started tl (run ops initial) = true /\
              cancelled tl (run ops initial) = false) /\
  (forall tl (w : World T),
     activeAnimationsRef (snd (complete tl w)) = activeAnimationsRef w).
Proof.
  intros Hv. split; [| intros tl w; apply complete_keeps_activeAnimations].
  intros tl.
  destruct (registered_run ops registered_initial Hv) as (Hlive & _ & _).
  rewrite Hlive.
  destruct (started tl (run ops initial)), (cancelled tl (run ops initial));
    simpl; intuition congruence.
Qed.

End EntryPoint.

(** ** Runs of the registry on binary64 *)

Module RegistryRuns.

Local Open Scope nat_scope.

(** C2, at the failing input: a flight with the default configuration has
    played to its end, with no [kill] and no [killAll].  Its timeline is
    completed and still in the list of active animations, so the list is
    not the set of timelines that have started and have neither completed
    nor been cancelled. *)
Lemma completed_timeline_stays_in_list :
  valid initial flownAndCompleted = true /\
  activeAnimationsRef (run flownAndCompleted initial) = [0%nat] /\
  completed 0%nat (run flownAndCompleted initial) = true /\
  ~ (live 0%nat (run flownAndCompleted initial) = true <->
     started 0%nat (run flownAndCompleted initial) = true /\
     completed 0%nat (run flownAndCompleted initial) = false /\
     cancelled 0%nat (run flownAndCompleted initial) = false).
Proof.
  repeat split.
  intros [Hlive _]. destruct (Hlive eq_refl) as (_ & Hc & _).
  vm_compute in Hc. discriminate Hc.
Qed.

Lemma live_iff_started_and_not_cancelled_witness :
  valid initial flownAndCompleted = true /\
  (live 0%nat (run flownAndCompleted initial) = true <->
   started 0%nat (run flownAndCompleted initial) = true /\
   cancelled 0%nat (run flownAndCompleted initial) = false).
Proof.
  split; [reflexivity |].
  apply (proj1 (live_iff_started_and_not_cancelled flownAndCompleted eq_refl)).
Defined.

(** C8, counterexample: a timeline that [kill] has already cancelled and
    removed is not in the list, yet a second [kill] invokes [kill()] on it
    once more. *)
Lemma kill_of_absent_timeline_cancels_again :
  live 0%nat (run flownAndKilled initial) = false /\
  kills 0%nat (run flownAndKilled initial) = 1%nat /\
  kills 0%nat (snd (kill (Some 0%nat) (run flownAndKilled initial))) = 2%nat /\
  snd (kill (Some 0%nat) (run flownAndKilled initial)) <> run flownAndKilled initial.
Proof.
  repeat split.
  intros E. apply (f_equal (kills 0%nat)) in E. vm_compute in E. discriminate E.
Qed.

(** C9, counterexample: after [killAll] has cancelled a timeline, [kill] on
    that timeline is not a no-op: [kill()] is invoked on it a second time. *)
Lemma kill_after_killAll_cancels_again :
  activeAnimationsRef (run flownAndAllKilled initial) = [] /\
  kills 0%nat (run flownAndAllKilled initial) = 1%nat /\
  kills 0%nat (snd (kill (Some 0%nat) (run flownAndAllKilled initial))) = 2%nat /\
  snd (kill (Some 0%nat) (run flownAndAllKilled initial))
    <> run flownAndAllKilled initial.
Proof.
  repeat split.
  intros E. apply (f_equal (kills 0%nat)) in E. vm_compute in E. discriminate E.
Qed.

End RegistryRuns.

(** ** Arithmetic of the extended reals *)

Section XRealFacts.

Local Open Scope R_scope.

Lemma add_fin (a b : R) : XReal.add (Fin a) (Fin b) = Fin (a + b).
Proof. reflexivity. Qed.

Lemma sub_fin (a b : R) : XReal.sub (Fin a) (Fin b) = Fin (a - b).
Proof. reflexivity. Qed.

Lemma mul_fin (a b : R) : XReal.mul (Fin a) (Fin b) = Fin (a * b).
Proof. reflexivity. Qed.

Lemma opp_fin (a : R) : XReal.opp (Fin a) = Fin (- a).
Proof. reflexivity. Qed.

Lemma div_fin (a b : R) : b <> 0 -> XReal.div (Fin a) (Fin b) = Fin (a / b).
Proof.
  intros Hb. unfold XReal.div. destruct (Req_dec_T b 0); [contradiction | reflexivity].
Qed.

Lemma div_zero_zero (a b : R) : a = 0 -> b = 0 -> XReal.div (Fin a) (Fin b) = NaN.
Proof.
  intros -> ->. unfold XReal.div, XReal.scaleInf.
  destruct (Req_dec_T 0 0) as [_ | Hn]; [| contradiction Hn; reflexivity].
  destruct (Rlt_dec 0 0) as [Hlt | _]; [exfalso; lra | reflexivity].
Qed.

Lemma sqrt_fin (a : R) : 0 <= a -> XReal.sqrt (Fin a) = Fin (sqrt a).
Proof.
  intros Ha. unfold XReal.sqrt. destruct (Rlt_dec a 0); [exfalso; lra | reflexivity].
Qed.

Lemma ne_fin_true (a b : R) : a <> b -> XReal.ne (Fin a) (Fin b) = true.
Proof.
  intros Hab. unfold XReal.ne. destruct (Req_dec_T a b); [contradiction | reflexivity].
Qed.

Lemma ne_fin_false (a b : R) : a = b -> XReal.ne (Fin a) (Fin b) = false.
Proof.
  intros Hab. unfold XReal.ne. destruct (Req_dec_T a b); [reflexivity | contradiction].
Qed.

Lemma Q2R_0 : Q2R 0 = 0.
Proof. unfold Q2R; simpl; lra. Qed.

Lemma Q2R_2 : Q2R 2 = 2.
Proof. unfold Q2R; simpl; lra. Qed.

Lemma perpSquare_nonneg (sx sy ex ey : R) : 0 <= perpSquare sx sy ex ey.
Proof.
  unfold perpSquare.
  replace (- (ey - sy) * - (ey - sy)) with (Rsqr (ey - sy)) by (unfold Rsqr; ring).
  fold (Rsqr (ex - sx)).
  pose proof (Rle_0_sqr (ey - sy)). pose proof (Rle_0_sqr (ex - sx)). lra.
Qed.

Lemma perpSquare_pos (sx sy ex ey : R) :
  (sx, sy) <> (ex, ey) -> 0 < perpSquare sx sy ex ey.
Proof.
  intros Hne. unfold perpSquare.
  replace (- (ey - sy) * - (ey - sy)) with (Rsqr (ey - sy)) by (unfold Rsqr; ring).
  fold (Rsqr (ex - sx)).
  pose proof (Rle_0_sqr (ey - sy)) as Hy0.
  pose proof (Rle_0_sqr (ex - sx)) as Hx0.
  destruct (Req_dec sx ex) as [Hx | Hx].
  - destruct (Req_dec sy ey) as [Hy | Hy]; [subst; contradiction Hne; reflexivity |].
    assert (0 < Rsqr (ey - sy)) by (apply Rsqr_pos_lt; lra). lra.
  - assert (0 < Rsqr (ex - sx)) by (apply Rsqr_pos_lt; lra). lra.
Qed.

Lemma perpLength_pos (sx sy ex ey : R) :
  (sx, sy) <> (ex, ey) -> 0 < sqrt (perpSquare sx sy ex ey).
Proof. intros Hne. apply sqrt_lt_R0, perpSquare_pos, Hne. Qed.

Lemma controlPoint_fin (sx sy ex ey s : R) :
  (sx, sy) <> (ex, ey) ->
  controlPoint (Fin sx) (Fin sy) (Fin ex) (Fin ey) (Fin s) =
  finPoint (offsetMidpoint sx sy ex ey s).
Proof.
  intros Hne. pose proof (perpLength_pos Hne) as Hlen.
  unfold controlPoint. js_ops.
  rewrite !sub_fin, !opp_fin, !mul_fin, !add_fin.
  fold (perpSquare sx sy ex ey).
  rewrite (sqrt_fin (perpSquare_nonneg sx sy ex ey)).
  rewrite !div_fin by (rewrite ?Q2R_2; lra).
  rewrite !mul_fin, !add_fin, Q2R_2.
  reflexivity.
Qed.

(** With coinciding points the division is [0 / 0]. *)
Lemma controlPoint_degenerate (x y s : R) :
  controlPoint (Fin x) (Fin y) (Fin x) (Fin y) (Fin s) =
  {| p_x := NaN; p_y := NaN |}.
Proof.
  unfold controlPoint. js_ops.
  rewrite !sub_fin, !opp_fin, !mul_fin, !add_fin.
  replace (- (y - y) * - (y - y) + (x - x) * (x - x)) with 0 by ring.
  replace (- (y - y)) with 0 by ring.
  replace (x - x) with 0 by ring.
  rewrite sqrt_fin by lra.
  rewrite sqrt_0.
  rewrite !(@div_zero_zero 0 0 eq_refl eq_refl).
  rewrite !div_fin by (rewrite Q2R_2; lra).
  reflexivity.
Qed.

End XRealFacts.

(** ** The curve *)

Section Curve.

Local Open Scope R_scope.

Lemma motionConfig_curved (config : Config xreal) (s : R) (cx cy tx ty : xreal) :
  swoopAmount config = Fin s -> s <> 0 ->
  motionConfig config cx cy tx ty =
  {| v_duration := Some (motionDuration config);
     v_ease := Some (motionEase config);
     v_delay := None; v_x := None; v_y := None;
     v_motionPath :=
       Some {| path := [ {| p_x := cx; p_y := cy |};
                         controlPoint cx cy tx ty (Fin s);
                         {| p_x := tx; p_y := ty |} ];
               curviness := lit 2; resolution := lit 6 |};
     v_scale := None; v_boxShadow := None |}.
Proof.
  intros Hs Hne. unfold motionConfig. rewrite Hs.
  cbn [strictNe lit JsNumber_xreal].
  rewrite ne_fin_true by (rewrite Q2R_0; exact Hne).
  reflexivity.
Qed.

(** X10: On the reals the two files of the hook aim at the same point when the
    target position is the default centre with no offset. *)
Lemma targetOf_centers (config : Config xreal) (i j : nat)
    (sl st sw sh sx sy tl tt tw th tx ty : R) :
  targetPosition config = center ->
  targetPositionOffset config = {| p_x := lit 0; p_y := lit 0 |} ->
  targetOf config (finElement i sl st sw sh sx sy) (finElement j tl tt tw th tx ty) =
  targetOfCenters (finElement i sl st sw sh sx sy) (finElement j tl tt tw th tx ty).
Proof.
  intros Hpos Hoff.
  unfold targetOf, targetOfCenters, getTargetPoint. rewrite Hpos, Hoff.
  cbn [finElement getBoundingClientRect getProperty_x getProperty_y rect_left
       rect_top rect_width rect_height p_x p_y].
  cbn [nadd nsub nmul ndiv nneg lit JsNumber_xreal].
  rewrite !div_fin by (rewrite Q2R_2; lra).
  rewrite ?add_fin, ?sub_fin. rewrite ?add_fin, ?sub_fin.
  rewrite Q2R_0, Q2R_2.
  f_equal; apply (f_equal Fin); lra.
Qed.

Lemma offsetMidpoint_example : offsetMidpoint 100 100 300 100 (-50) = (200, 50).
Proof.
  unfold offsetMidpoint, midpoint, unitPerp, perpSquare. cbn [fst snd].
  replace (- (100 - 100) * - (100 - 100) + (300 - 100) * (300 - 100))
    with (200 * 200) by ring.
  rewrite sqrt_square by lra.
  f_equal; field.
Qed.

(** C5: for distinct start and end and a non-zero [swoopAmount], the control
    point the hook computes is the midpoint moved by [swoopAmount] along the
    normalised perpendicular [(-dy, dx) / |(-dy, dx)|], and it is the middle
    point of the motion path; for (100,100), (300,100) and -50 it is
    (200, 50), on the reals and on binary64. *)
Theorem control_point_is_offset_midpoint :
  (forall (sx sy ex ey s : R) (config : Config xreal),
     (sx, sy) <> (ex, ey) -> s <> 0 -> swoopAmount config = Fin s ->
     sqrt (perpSquare sx sy ex ey) <> 0 /\
     controlPoint (Fin sx) (Fin sy) (Fin ex) (Fin ey) (Fin s) =
       finPoint (offsetMidpoint sx sy ex ey s) /\
     v_motionPath (motionConfig config (Fin sx) (Fin sy) (Fin ex) (Fin ey)) =
       Some {| path := [ finPoint (sx, sy);
                         finPoint (offsetMidpoint sx sy ex ey s);
                         finPoint (ex, ey) ];
               curviness := lit 2; resolution := lit 6 |}) /\
  controlPoint (Fin 100) (Fin 100) (Fin 300) (Fin 100) (Fin (-50)) =
    finPoint (200, 50) /\
  controlPoint (lit 100) (lit 100) (lit 300) (lit 100) (lit (-50))
    = ({| p_x := lit 200; p_y := lit 50 |} : Point PrimFloat.float).
Proof.
  split; [| split].
  - intros sx sy ex ey s config Hne Hs Hcfg.
    pose proof (perpLength_pos Hne) as Hlen.
    split; [lra |]. split; [apply controlPoint_fin; exact Hne |].
    rewrite (motionConfig_curved config _ _ _ _ Hcfg Hs).
    cbn [v_motionPath]. rewrite controlPoint_fin by exact Hne. reflexivity.
  - rewrite controlPoint_fin, offsetMidpoint_example; [reflexivity |].
    intros E. inversion E; lra.
  - vm_compute. reflexivity.
Qed.

Lemma control_point_is_offset_midpoint_witness :
  (0, 0) <> (3, 4) /\ 1 <> 0 /\
  controlPoint (Fin 0) (Fin 0) (Fin 3) (Fin 4) (Fin 1) =
    finPoint (offsetMidpoint 0 0 3 4 1).
Proof.
  assert (Hne : (0, 0) <> (3, 4)) by (intros E; inversion E; lra).
  assert (Hs : 1 <> 0) by lra.
  split; [exact Hne |]. split; [exact Hs |].
  exact (proj1 (proj2
    (proj1 control_point_is_offset_midpoint 0 0 3 4 1
       {| motionDuration := Fin 1; motionEase := "none"; swoopAmount := Fin 1;
          targetPosition := center;
          targetPositionOffset := {| p_x := Fin 0; p_y := Fin 0 |};
          scale := false; grabScale := Fin 1; scaleStartDelay := Fin 0;
          scaleUpDuration := Fin 0; scaleUpEase := "none"; scalePeak := Fin 1;
          scalePause := Fin 0; scaleDownDuration := Fin 0;
          scaleDownEase := "none"; scaleTarget := Fin 1; enableShadow := false;
          baseShadowBlur := Fin 0; onComplete := noop; onStart := noop |}
       Hne Hs eq_refl))).
Defined.

(** C10: for distinct start and end and every [swoopAmount], the control
    point is as far from the start as from the end, and its distance from
    the midpoint of the segment is [|swoopAmount|]. *)
Theorem control_point_on_bisector (sx sy ex ey s : R) :
  (sx, sy) <> (ex, ey) ->
  exists c : R * R,
    controlPoint (Fin sx) (Fin sy) (Fin ex) (Fin ey) (Fin s) = finPoint c /\
    distance c (sx, sy) = distance c (ex, ey) /\
    distance c (midpoint sx sy ex ey) = Rabs s.
Proof.
  intros Hne. exists (offsetMidpoint sx sy ex ey s).
  split; [apply controlPoint_fin; exact Hne |].
  pose proof (perpLength_pos Hne) as Hlen.
  pose proof (sqrt_sqrt _ (perpSquare_nonneg sx sy ex ey)) as Hsq.
  unfold distance, offsetMidpoint, midpoint, unitPerp. cbn [fst snd].
  set (L := sqrt (perpSquare sx sy ex ey)) in *.
  split.
  - f_equal. field. lra.
  - rewrite <- sqrt_Rsqr_abs. f_equal. unfold Rsqr.
    transitivity (s * s * perpSquare sx sy ex ey / (L * L)).
    + unfold perpSquare. field. lra.
    + rewrite <- Hsq. field. lra.
Qed.

Lemma control_point_on_bisector_witness :
  (100, 100) <> (300, 100) /\
  exists c : R * R,
    controlPoint (Fin 100) (Fin 100) (Fin 300) (Fin 100) (Fin (-50)) = finPoint c /\
    distance c (100, 100) = distance c (300, 100) /\
    distance c (midpoint 100 100 300 100) = Rabs (-50).
Proof.
  assert (Hne : (100, 100) <> (300, 100)) by (intros E; inversion E; lra).
  split; [exact Hne |].
  exact (control_point_on_bisector (-50) Hne).
Defined.

End Curve.

(** ** The composed timeline *)

Section Composer.

Context {T : Type} `{JsNumber T}.
Local Open Scope js_scope.

Lemma motionConfig_shadow (config : Config T) (cx cy tx ty : T) :
  v_boxShadow (motionConfig config cx cy tx ty) = None.
Proof.
  unfold motionConfig. destruct (swoopAmount config !== lit 0); reflexivity.
Qed.

Lemma motionConfig_no_shadow (config : Config T) (cx cy tx ty : T) :
  shadowOf (motionConfig config cx cy tx ty) = [].
Proof. unfold shadowOf. rewrite motionConfig_shadow. reflexivity. Qed.

Lemma motionConfig_timing (config : Config T) (cx cy tx ty : T) :
  v_delay (motionConfig config cx cy tx ty) = None /\
  v_duration (motionConfig config cx cy tx ty) = Some (motionDuration config).
Proof.
  unfold motionConfig. destruct (swoopAmount config !== lit 0); split; reflexivity.
Qed.

(** When [swoopAmount !== 0] fails the motion tween is the direct one: it
    carries the [x] and [y] of [targetOf] and no motion path, for every
    number type.  It is the first child of the timeline, at position 0. *)
Theorem straight_line_when_swoop_is_zero (s t : HTMLElement T)
    (c : FlyToTargetConfig T) (w : World T) :
  (swoopAmount (spread DEFAULT_CONFIG c) !== lit 0) = false ->
  trace (snd (flyToTarget (Some s) (Some t) c w)) =
    trace w ++ flight (spread DEFAULT_CONFIG c) s t (timelines w) /\
  nth_error (flight (spread DEFAULT_CONFIG c) s t (timelines w)) 2 =
    Some (TimelineTo (timelines w) s
            {| v_duration := Some (motionDuration (spread DEFAULT_CONFIG c));
               v_ease := Some (motionEase (spread DEFAULT_CONFIG c));
               v_delay := None;
               v_x := Some (p_x (targetOf (spread DEFAULT_CONFIG c) s t));
               v_y := Some (p_y (targetOf (spread DEFAULT_CONFIG c) s t));
               v_motionPath := None; v_scale := None; v_boxShadow := None |}
            (AtTime (lit 0))) /\
  targetOf (spread DEFAULT_CONFIG c) s t =
    {| p_x := getProperty_x s +
              (p_x (getTargetPoint (spread DEFAULT_CONFIG c)
                      (getBoundingClientRect t)
                      (targetPosition (spread DEFAULT_CONFIG c)))
               - (rect_left (getBoundingClientRect s)
                  + rect_width (getBoundingClientRect s) / lit 2));
       p_y := getProperty_y s +
              (p_y (getTargetPoint (spread DEFAULT_CONFIG c)
                      (getBoundingClientRect t)
                      (targetPosition (spread DEFAULT_CONFIG c)))
               - (rect_top (getBoundingClientRect s)
                  + rect_height (getBoundingClientRect s) / lit 2)) |}.
Proof.
  intros Hz. rewrite flyToTarget_run. cbn [snd trace].
  split; [reflexivity |]. split; [| reflexivity].
  unfold flight. cbn [nth_error app]. unfold motionConfig. rewrite Hz.
  reflexivity.
Qed.


(** Where GSAP places the three children of a flight with [scale] on. *)
Lemma schedule_of_flight (s t : HTMLElement T) (c : FlyToTargetConfig T) :
  let config := spread DEFAULT_CONFIG c in
  scale config = true ->
  map fst (schedule 0%nat (snd (flyToTarget (Some s) (Some t) c initial))) =
  [ lit 0 + lit 0;
    lit 0 + scaleStartDelay config;
    (lit 0 + scaleStartDelay config + scaleUpDuration config
     + (scaleStartDelay config + scaleUpDuration config))
    + scalePause config ].
Proof.
  intros config Hscale. rewrite flyToTarget_run.
  unfold schedule. cbn [snd trace app initial timelines].
  unfold flight. fold config. rewrite Hscale.
  pose proof (motionConfig_timing config (getProperty_x s) (getProperty_y s)
                (p_x (targetOf config s t)) (p_y (targetOf config s t)))
    as [Hd _].
  unfold scaleConfig, scaleDownConfig.
  destruct (enableShadow config);
    cbn [app children Nat.eqb place map fst];
    unfold endTime, startTime; cbn [c_vars c_position];
    rewrite Hd; reflexivity.
Qed.

End Composer.

(** ** Runs of the composer *)

Module ComposerRuns.

Local Open Scope nat_scope.
Local Open Scope js_scope.
Local Open Scope string_scope.

Lemma straight_line_when_swoop_is_zero_witness :
  (swoopAmount (spread DEFAULT_CONFIG (withSwoopAmount emptyConfig (lit 0 : F)))
     !== lit 0) = false /\
  nth_error
    (flight (spread DEFAULT_CONFIG (withSwoopAmount emptyConfig (lit 0 : F)))
       dart bullseye 0) 2 =
  Some (TimelineTo 0 dart
          {| v_duration := Some (lit 0.45); v_ease := Some "power3.out";
             v_delay := None; v_x := Some (lit 200); v_y := Some (lit 0);
             v_motionPath := None; v_scale := None; v_boxShadow := None |}
          (AtTime (lit 0))).
Proof.
  split; [reflexivity |].
  exact (proj1 (proj2
    (straight_line_when_swoop_is_zero dart bullseye
       (withSwoopAmount emptyConfig (lit 0 : F)) initial eq_refl))).
Defined.


(** X6: With coinciding start and end the curve goes through [NaN], on the
    extended reals as well. *)
Lemma motionConfig_degenerate (config : Config xreal) (x y s : R) :
  swoopAmount config = Fin s -> s <> 0%R ->
  v_motionPath (motionConfig config (Fin x) (Fin y) (Fin x) (Fin y)) =
  Some {| path := [ {| p_x := Fin x; p_y := Fin y |};
                    {| p_x := NaN; p_y := NaN |};
                    {| p_x := Fin x; p_y := Fin y |} ];
          curviness := lit 2; resolution := lit 6 |}.
Proof.
  intros Hs Hne. rewrite (motionConfig_curved config _ _ _ _ Hs Hne).
  cbn [v_motionPath]. rewrite controlPoint_degenerate. reflexivity.
Qed.

(** C1, at the failing input: the dart already sits on the bullseye, so the
    start and the end of the flight are both (200, 0), and [swoopAmount] is
    the default -100.  The hook takes the curved branch, divides 0 by 0, and
    hands the engine a motion path whose control point is (NaN, NaN): it does
    not return a null control point and does not fall back to the direct
    tween. *)
Theorem coinciding_points_give_NaN_control_point :
  targetOf (spread DEFAULT_CONFIG emptyConfig) dartAtTarget bullseye =
    ({| p_x := getProperty_x dartAtTarget; p_y := getProperty_y dartAtTarget |}
       : Point F) /\
  nth_error
    (trace (snd (flyToTarget (Some dartAtTarget) (Some bullseye) emptyConfig
                   (@initial F)))) 2 =
  Some (TimelineTo 0 dartAtTarget
          {| v_duration := Some (lit 0.45); v_ease := Some "power3.out";
             v_delay := None; v_x := None; v_y := None;
             v_motionPath :=
               Some {| path := [ {| p_x := lit 200; p_y := lit 0 |};
                                 {| p_x := PrimFloat.nan; p_y := PrimFloat.nan |};
                                 {| p_x := lit 200; p_y := lit 0 |} ];
                       curviness := lit 2; resolution := lit 6 |};
             v_scale := None; v_boxShadow := None |}
          (AtTime (lit 0))) /\
  controlPoint (Fin 200) (Fin 0) (Fin 200) (Fin 0) (Fin (-100)) =
    {| p_x := NaN; p_y := NaN |}.
Proof.
  split; [vm_compute; reflexivity |].
  split; [vm_compute; reflexivity |].
  apply controlPoint_degenerate.
Qed.

(** Under the placement rule [startTime] the scale-down tween starts at
    [2 * (scaleStartDelay + scaleUpDuration) + scalePause]. *)
Lemma scale_down_start_fin (s t : HTMLElement xreal) (c : FlyToTargetConfig xreal)
    (ssd sud sp : R) :
  scale (spread DEFAULT_CONFIG c) = true ->
  scaleStartDelay (spread DEFAULT_CONFIG c) = Fin ssd ->
  scaleUpDuration (spread DEFAULT_CONFIG c) = Fin sud ->
  scalePause (spread DEFAULT_CONFIG c) = Fin sp ->
  nth_error
    (map fst (schedule 0 (snd (flyToTarget (Some s) (Some t) c initial)))) 2 =
  Some (Fin (2 * (ssd + sud) + sp)).
Proof.
  intros Hscale Hssd Hsud Hsp.
  rewrite schedule_of_flight by exact Hscale.
  rewrite Hssd, Hsud, Hsp.
  cbn [nth_error nadd lit JsNumber_xreal]. rewrite !add_fin, Q2R_0.
  apply (f_equal Some), (f_equal Fin). lra.
Qed.

Example targetOf_dart_bullseye :
  targetOf (spread DEFAULT_CONFIG emptyConfig) dart bullseye =
  ({| p_x := lit 200; p_y := lit 0 |} : Point F).
Proof. vm_compute. reflexivity. Qed.

Example getTargetPoint_bottomRight :
  getTargetPoint (spread DEFAULT_CONFIG emptyConfig)
    (getBoundingClientRect bullseye) bottomRight =
  ({| p_x := lit 320; p_y := lit 120 |} : Point F).
Proof. vm_compute. reflexivity. Qed.

(** C3, at the failing input: the default configuration.  The scale-down
    tween is added at [">0.2"] with delay 0.15, so GSAP starts it 0.2 s
    after the end of the scale-up tween (0.2 s), plus the delay: at 0.55 s,
    not at 0 + 0.2 + 0.15 = 0.35 s.  The start does not depend on
    [motionDuration]. *)
Theorem scale_down_starts_after_twice_the_scale_up :
  map fst (schedule 0
             (snd (flyToTarget (Some dart) (Some bullseye) emptyConfig (@initial F))))
    = [lit 0; lit 0; lit 0.55] /\
  (lit 0 + lit 0.2 + lit 0.15 : F) = lit 0.35 /\
  map fst (schedule 0
             (snd (flyToTarget (Some dart) (Some bullseye)
                     (withMotionDuration emptyConfig (lit 0.1)) (@initial F))))
    = [lit 0; lit 0; lit 0.55] /\
  map fst (schedule 0
             (snd (flyToTarget (Some dart) (Some bullseye)
                     (withMotionDuration emptyConfig (lit 3.0)) (@initial F))))
    = [lit 0; lit 0; lit 0.55] /\
  map fst (schedule 0
             (snd (flyToTarget (Some dart) (Some bullseye) emptyConfig
                     (@initial xreal))))
    = [lit 0; lit 0; lit 0.55].
Proof.
  repeat split; try (vm_compute; reflexivity).
  rewrite schedule_of_flight by reflexivity.
  cbn [spread DEFAULT_CONFIG emptyConfig orDefault scaleStartDelay
       scaleUpDuration scalePause opt_scaleStartDelay opt_scaleUpDuration
       opt_scalePause nadd lit JsNumber_xreal].
  rewrite !add_fin.
  repeat (apply (f_equal2 (@cons xreal));
          [apply (f_equal Fin); unfold Q2R; simpl; lra |]).
  reflexivity.
Qed.

End ComposerRuns.

(** ** More on the curve *)

Section CurveShape.

Local Open Scope R_scope.

Lemma perpSquare_sym (sx sy ex ey : R) :
  perpSquare ex ey sx sy = perpSquare sx sy ex ey.
Proof. unfold perpSquare. ring. Qed.

Lemma perpSquare_shift (sx sy ex ey vx vy : R) :
  perpSquare (sx + vx) (sy + vy) (ex + vx) (ey + vy) = perpSquare sx sy ex ey.
Proof. unfold perpSquare. ring. Qed.

Lemma distinct_sym (sx sy ex ey : R) : (sx, sy) <> (ex, ey) -> (ex, ey) <> (sx, sy).
Proof. intros Hne E. apply Hne. inversion E. reflexivity. Qed.

Lemma distinct_shift (sx sy ex ey vx vy : R) :
  (sx, sy) <> (ex, ey) -> (sx + vx, sy + vy) <> (ex + vx, ey + vy).
Proof.
  intros Hne E. apply Hne. inversion E.
  f_equal; lra.
Qed.

(** X1: Flying the other way round with the same [swoopAmount] bends the path
    to the other side: the control point is the one of the opposite
    [swoopAmount]. *)
Theorem reversing_travel_flips_the_curve (sx sy ex ey s : R) :
  (sx, sy) <> (ex, ey) ->
  controlPoint (Fin ex) (Fin ey) (Fin sx) (Fin sy) (Fin s) =
  controlPoint (Fin sx) (Fin sy) (Fin ex) (Fin ey) (Fin (- s)).
Proof.
  intros Hne. pose proof (perpLength_pos Hne) as Hlen.
  rewrite (controlPoint_fin s (distinct_sym Hne)).
  rewrite (controlPoint_fin (- s) Hne).
  unfold finPoint, offsetMidpoint, midpoint, unitPerp. cbn [fst snd].
  rewrite perpSquare_sym.
  f_equal; apply (f_equal Fin); field; lra.
Qed.

Lemma reversing_travel_flips_the_curve_witness :
  (100, 100) <> (300, 100) /\
  controlPoint (Fin 300) (Fin 100) (Fin 100) (Fin 100) (Fin 50) =
  controlPoint (Fin 100) (Fin 100) (Fin 300) (Fin 100) (Fin (- 50)).
Proof.
  assert (Hne : (100, 100) <> (300, 100)) by (intros E; inversion E; lra).
  split; [exact Hne |].
  exact (reversing_travel_flips_the_curve 50 Hne).
Defined.

(** X2: The control points of [swoopAmount] and of [- swoopAmount] are mirror
    images of each other in the midpoint of the segment. *)
Theorem swoop_sign_reflects_control_point (sx sy ex ey s : R) :
  (sx, sy) <> (ex, ey) ->
  exists c c' : R * R,
    controlPoint (Fin sx) (Fin sy) (Fin ex) (Fin ey) (Fin s) = finPoint c /\
    controlPoint (Fin sx) (Fin sy) (Fin ex) (Fin ey) (Fin (- s)) = finPoint c' /\
    (fst c + fst c') / 2 = fst (midpoint sx sy ex ey) /\
    (snd c + snd c') / 2 = snd (midpoint sx sy ex ey).
Proof.
  intros Hne. pose proof (perpLength_pos Hne) as Hlen.
  exists (offsetMidpoint sx sy ex ey s), (offsetMidpoint sx sy ex ey (- s)).
  split; [apply controlPoint_fin; exact Hne |].
  split; [apply controlPoint_fin; exact Hne |].
  unfold offsetMidpoint, midpoint, unitPerp. cbn [fst snd].
  split; field; lra.
Qed.

Lemma swoop_sign_reflects_control_point_witness :
  (100, 100) <> (300, 100) /\
  exists c c' : R * R,
    controlPoint (Fin 100) (Fin 100) (Fin 300) (Fin 100) (Fin 50) = finPoint c /\
    controlPoint (Fin 100) (Fin 100) (Fin 300) (Fin 100) (Fin (- 50)) = finPoint c' /\
    (fst c + fst c') / 2 = fst (midpoint 100 100 300 100) /\
    (snd c + snd c') / 2 = snd (midpoint 100 100 300 100).
Proof.
  assert (Hne : (100, 100) <> (300, 100)) by (intros E; inversion E; lra).
  split; [exact Hne |].
  exact (swoop_sign_reflects_control_point 50 Hne).
Defined.

(** X3: The sign convention: the offset of the control point from the midpoint
    is at right angles to the displacement [(dx, dy)], and its component
    along the perpendicular [(-dy, dx)] is [swoopAmount] times the length
    of the displacement, so a positive [swoopAmount] bends the path towards
    [(-dy, dx)] and a negative one away from it. *)
Theorem control_point_side (sx sy ex ey s : R) :
  (sx, sy) <> (ex, ey) ->
  exists c : R * R,
    controlPoint (Fin sx) (Fin sy) (Fin ex) (Fin ey) (Fin s) = finPoint c /\
    (fst c - fst (midpoint sx sy ex ey)) * (ex - sx)
      + (snd c - snd (midpoint sx sy ex ey)) * (ey - sy) = 0 /\
    (fst c - fst (midpoint sx sy ex ey)) * - (ey - sy)
      + (snd c - snd (midpoint sx sy ex ey)) * (ex - sx)
      = s * distance (sx, sy) (ex, ey) /\
    0 < distance (sx, sy) (ex, ey).
Proof.
  intros Hne. pose proof (perpLength_pos Hne) as Hlen.
  pose proof (sqrt_sqrt _ (perpSquare_nonneg sx sy ex ey)) as Hsq.
  assert (Hd : distance (sx, sy) (ex, ey) = sqrt (perpSquare sx sy ex ey)).
  { unfold distance, perpSquare. cbn [fst snd]. f_equal. ring. }
  exists (offsetMidpoint sx sy ex ey s).
  split; [apply controlPoint_fin; exact Hne |].
  rewrite Hd.
  unfold offsetMidpoint, midpoint, unitPerp. cbn [fst snd].
  set (L := sqrt (perpSquare sx sy ex ey)) in *.
  split; [field; lra |].
  split; [| exact Hlen].
  transitivity (s * perpSquare sx sy ex ey / L).
  - unfold perpSquare. field. lra.
  - rewrite <- Hsq. field. lra.
Qed.

Lemma control_point_side_witness :
  (100, 100) <> (300, 100) /\
  exists c : R * R,
    controlPoint (Fin 100) (Fin 100) (Fin 300) (Fin 100) (Fin (- 50)) = finPoint c /\
    (fst c - fst (midpoint 100 100 300 100)) * (300 - 100)
      + (snd c - snd (midpoint 100 100 300 100)) * (100 - 100) = 0 /\
    (fst c - fst (midpoint 100 100 300 100)) * - (100 - 100)
      + (snd c - snd (midpoint 100 100 300 100)) * (300 - 100)
      = - 50 * distance (100, 100) (300, 100) /\
    0 < distance (100, 100) (300, 100).
Proof.
  assert (Hne : (100, 100) <> (300, 100)) by (intros E; inversion E; lra).
  split; [exact Hne |].
  exact (control_point_side (- 50) Hne).
Defined.

(** X4: The shape of the path does not depend on where it is: moving start and
    end by the same vector moves the control point by that vector. *)
Theorem control_point_translates (sx sy ex ey s vx vy : R) :
  (sx, sy) <> (ex, ey) ->
  exists c : R * R,
    controlPoint (Fin sx) (Fin sy) (Fin ex) (Fin ey) (Fin s) = finPoint c /\
    controlPoint (Fin (sx + vx)) (Fin (sy + vy)) (Fin (ex + vx)) (Fin (ey + vy))
      (Fin s) = finPoint (fst c + vx, snd c + vy).
Proof.
  intros Hne. pose proof (perpLength_pos Hne) as Hlen.
  exists (offsetMidpoint sx sy ex ey s).
  split; [apply controlPoint_fin; exact Hne |].
  rewrite (controlPoint_fin s (@distinct_shift sx sy ex ey vx vy Hne)).
  unfold finPoint, offsetMidpoint, midpoint, unitPerp. cbn [fst snd].
  rewrite perpSquare_shift.
  f_equal; apply (f_equal Fin); field; lra.
Qed.

Lemma control_point_translates_witness :
  (0, 0) <> (200, 0) /\
  exists c : R * R,
    controlPoint (Fin 0) (Fin 0) (Fin 200) (Fin 0) (Fin (- 50)) = finPoint c /\
    controlPoint (Fin (0 + 100)) (Fin (0 + 100)) (Fin (200 + 100)) (Fin (0 + 100))
      (Fin (- 50)) = finPoint (fst c + 100, snd c + 100).
Proof.
  assert (Hne : (0, 0) <> (200, 0)) by (intros E; inversion E; lra).
  split; [exact Hne |].
  exact (control_point_translates (- 50) 100 100 Hne).
Defined.

Lemma mul_NaN (a : xreal) : XReal.mul a NaN = NaN.
Proof. destruct a; reflexivity. Qed.

Lemma add_NaN (a : xreal) : XReal.add a NaN = NaN.
Proof. destruct a; reflexivity. Qed.

(** X5: A [swoopAmount] that is [NaN] is not caught by the test against 0: the
    hook takes the curved branch, for any start and end whatever, and the
    control point of the path is (NaN, NaN); [x] and [y] are not set. *)
Theorem NaN_swoop_gives_NaN_control_point (config : Config xreal)
    (cx cy tx ty : xreal) :
  swoopAmount config = NaN ->
  v_x (motionConfig config cx cy tx ty) = None /\
  v_y (motionConfig config cx cy tx ty) = None /\
  v_motionPath (motionConfig config cx cy tx ty) =
    Some {| path := [ {| p_x := cx; p_y := cy |};
                      {| p_x := NaN; p_y := NaN |};
                      {| p_x := tx; p_y := ty |} ];
            curviness := lit 2; resolution := lit 6 |}.
Proof.
  intros Hs. unfold motionConfig. rewrite Hs.
  cbn [strictNe lit JsNumber_xreal XReal.ne].
  cbn [set_motionPath v_x v_y v_motionPath].
  repeat split.
  unfold controlPoint.
  cbn [nadd nsub nmul ndiv nneg Math_sqrt lit JsNumber_xreal p_x p_y].
  rewrite !mul_NaN, !add_NaN. reflexivity.
Qed.

Lemma NaN_swoop_gives_NaN_control_point_witness :
  swoopAmount (spread DEFAULT_CONFIG (withSwoopAmount emptyConfig NaN)) = NaN /\
  v_x (motionConfig (spread DEFAULT_CONFIG (withSwoopAmount emptyConfig NaN))
         (Fin 0) (Fin 0) (Fin 200) (Fin 0)) = None.
Proof.
  split; [reflexivity |].
  exact (proj1 (NaN_swoop_gives_NaN_control_point
    (spread DEFAULT_CONFIG (withSwoopAmount emptyConfig NaN))
    (Fin 0) (Fin 0) (Fin 200) (Fin 0) eq_refl)).
Defined.

Lemma motionConfig_degenerate_witness :
  swoopAmount (spread DEFAULT_CONFIG (@emptyConfig xreal)) = Fin (Q2R (-100)) /\
  Q2R (-100) <> 0 /\
  v_motionPath (motionConfig (spread DEFAULT_CONFIG emptyConfig)
                  (Fin 200) (Fin 0) (Fin 200) (Fin 0)) =
  Some {| path := [ {| p_x := Fin 200; p_y := Fin 0 |};
                    {| p_x := NaN; p_y := NaN |};
                    {| p_x := Fin 200; p_y := Fin 0 |} ];
          curviness := lit 2; resolution := lit 6 |}.
Proof.
  assert (Hne : Q2R (-100) <> 0) by (unfold Q2R; simpl; lra).
  split; [reflexivity |]. split; [exact Hne |].
  exact (ComposerRuns.motionConfig_degenerate
           (spread DEFAULT_CONFIG emptyConfig) 200 0 eq_refl Hne).
Defined.

End CurveShape.

(** ** The target point *)

Section TargetPoint.

Local Open Scope R_scope.

Ltac anchor_ops :=
  unfold getTargetPoint, finRect;
  cbn [rect_left rect_top rect_width rect_height p_x p_y finPoint fst snd];
  cbn [nadd nsub nmul ndiv nneg lit JsNumber_xreal];
  rewrite ?div_fin by (rewrite Q2R_2; lra);
  rewrite ?add_fin, ?Q2R_2.

(** X7: Every one of the nine positions resolves to a point of the target
    rectangle (its border included), moved by [targetPositionOffset]. *)
Theorem anchors_lie_in_the_rectangle (config : Config xreal)
    (l t w h ox oy : R) (position : PositionType) :
  0 <= w -> 0 <= h ->
  targetPositionOffset config = finPoint (ox, oy) ->
  exists a : R * R,
    getTargetPoint config (finRect l t w h) position = finPoint a /\
    l <= fst a - ox <= l + w /\
    t <= snd a - oy <= t + h.
Proof.
  intros Hw Hh Hoff.
  destruct position; anchor_ops; rewrite Hoff; cbn [finPoint p_x p_y fst snd];
    rewrite ?add_fin;
    (eexists (_, _); split; [reflexivity |]); cbn [fst snd]; lra.
Qed.

Lemma anchors_lie_in_the_rectangle_witness :
  0 <= 40 /\ 0 <= 40 /\
  targetPositionOffset (spread DEFAULT_CONFIG (@emptyConfig xreal)) =
    finPoint (Q2R 0, Q2R 0) /\
  exists a : R * R,
    getTargetPoint (spread DEFAULT_CONFIG emptyConfig) (finRect 280 80 40 40)
      bottomRight = finPoint a /\
    280 <= fst a - Q2R 0 <= 280 + 40 /\
    80 <= snd a - Q2R 0 <= 80 + 40.
Proof.
  assert (H40 : 0 <= 40) by lra.
  assert (Hoff : targetPositionOffset (spread DEFAULT_CONFIG (@emptyConfig xreal)) =
                 finPoint (Q2R 0, Q2R 0)) by reflexivity.
  split; [exact H40 |]. split; [exact H40 |]. split; [exact Hoff |].
  exact (anchors_lie_in_the_rectangle (spread DEFAULT_CONFIG emptyConfig)
           280 80 bottomRight H40 H40 Hoff).
Defined.

(** X8: [center] is the midpoint of every pair of opposite positions: of the
    two diagonals and of the two pairs of edge midpoints, whatever the
    offset. *)
Theorem center_is_midpoint_of_opposite_anchors (config : Config xreal)
    (l t w h ox oy : R) :
  targetPositionOffset config = finPoint (ox, oy) ->
  exists c : R * R,
    getTargetPoint config (finRect l t w h) center = finPoint c /\
    forall p q : PositionType,
      (p, q) = (topLeft, bottomRight) \/ (p, q) = (topRight, bottomLeft) \/
      (p, q) = (topCenter, bottomCenter) \/ (p, q) = (leftCenter, rightCenter) ->
      exists a b : R * R,
        getTargetPoint config (finRect l t w h) p = finPoint a /\
        getTargetPoint config (finRect l t w h) q = finPoint b /\
        (fst a + fst b) / 2 = fst c /\ (snd a + snd b) / 2 = snd c.
Proof.
  intros Hoff.
  exists (l + w / 2 + ox, t + h / 2 + oy).
  split.
  - anchor_ops. rewrite Hoff. cbn [finPoint p_x p_y fst snd].
    rewrite ?add_fin. reflexivity.
  - intros p q [E | [E | [E | E]]]; inversion E; subst p q;
      anchor_ops; rewrite Hoff; cbn [finPoint p_x p_y fst snd];
      rewrite ?add_fin;
      (eexists (_, _), (_, _); split; [reflexivity |]; split; [reflexivity |]);
      cbn [fst snd]; split; field.
Qed.

Lemma center_is_midpoint_of_opposite_anchors_witness :
  targetPositionOffset (spread DEFAULT_CONFIG (@emptyConfig xreal)) =
    finPoint (Q2R 0, Q2R 0) /\
  exists c : R * R,
    getTargetPoint (spread DEFAULT_CONFIG emptyConfig) (finRect 280 80 40 40)
      center = finPoint c.
Proof.
  assert (Hoff : targetPositionOffset (spread DEFAULT_CONFIG (@emptyConfig xreal)) =
                 finPoint (Q2R 0, Q2R 0)) by reflexivity.
  split; [exact Hoff |].
  destruct (center_is_midpoint_of_opposite_anchors
              (spread DEFAULT_CONFIG emptyConfig) 280 80 40 40 Hoff)
    as (c & Hc & _).
  exists c. exact Hc.
Defined.

(** X9: The flight lands the centre of the source on the resolved target point:
    the displacement from the current translation to the target of the
    motion is the vector from the centre of the source rectangle to that
    point, whatever the current translation is. *)
Theorem flight_lands_centre_on_target_point (config : Config xreal) (i j : nat)
    (sl st sw sh sx sy tl tt tw th tx ty ox oy : R) :
  targetPositionOffset config = finPoint (ox, oy) ->
  exists a g : R * R,
    getTargetPoint config (finRect tl tt tw th) (targetPosition config) = finPoint a /\
    targetOf config (finElement i sl st sw sh sx sy) (finElement j tl tt tw th tx ty)
      = finPoint g /\
    (sl + sw / 2) + (fst g - sx) = fst a /\
    (st + sh / 2) + (snd g - sy) = snd a.
Proof.
  intros Hoff.
  assert (Ha : exists a : R * R,
             getTargetPoint config (finRect tl tt tw th) (targetPosition config)
               = finPoint a).
  { destruct (targetPosition config); anchor_ops; rewrite Hoff;
      cbn [finPoint p_x p_y fst snd]; rewrite ?add_fin;
      eexists (_, _); reflexivity. }
  destruct Ha as [[ax ay] Ha].
  exists (ax, ay), (sx + (ax - (sl + sw / 2)), sy + (ay - (st + sh / 2))).
  split; [exact Ha |]. split.
  - unfold targetOf.
    change (getBoundingClientRect (finElement j tl tt tw th tx ty))
      with (finRect tl tt tw th).
    rewrite Ha.
    cbn [finElement getBoundingClientRect getProperty_x getProperty_y rect_left
         rect_top rect_width rect_height p_x p_y finPoint fst snd].
    cbn [nadd nsub nmul ndiv nneg lit JsNumber_xreal].
    rewrite !div_fin by (rewrite Q2R_2; lra).
    rewrite !add_fin, !sub_fin, !add_fin, Q2R_2. reflexivity.
  - cbn [fst snd]. split; lra.
Qed.

Lemma flight_lands_centre_on_target_point_witness :
  targetPositionOffset (spread DEFAULT_CONFIG (@emptyConfig xreal)) =
    finPoint (Q2R 0, Q2R 0) /\
  exists a g : R * R,
    getTargetPoint (spread DEFAULT_CONFIG emptyConfig) (finRect 280 80 40 40)
      (targetPosition (spread DEFAULT_CONFIG (@emptyConfig xreal))) = finPoint a /\
    targetOf (spread DEFAULT_CONFIG emptyConfig)
      (finElement 1 90 90 20 20 0 0) (finElement 2 280 80 40 40 0 0) = finPoint g /\
    (90 + 20 / 2) + (fst g - 0) = fst a /\
    (90 + 20 / 2) + (snd g - 0) = snd a.
Proof.
  assert (Hoff : targetPositionOffset (spread DEFAULT_CONFIG (@emptyConfig xreal)) =
                 finPoint (Q2R 0, Q2R 0)) by reflexivity.
  split; [exact Hoff |].
  exact (flight_lands_centre_on_target_point
           (spread DEFAULT_CONFIG emptyConfig) 1 2 90 90 20 20 0 0 280 80 40 40 0 0
           Hoff).
Defined.

Lemma targetOf_centers_witness :
  targetPosition (spread DEFAULT_CONFIG (@emptyConfig xreal)) = center /\
  targetPositionOffset (spread DEFAULT_CONFIG (@emptyConfig xreal)) =
    {| p_x := lit 0; p_y := lit 0 |} /\
  targetOf (spread DEFAULT_CONFIG emptyConfig)
    (finElement 1 90 90 20 20 0 0) (finElement 2 280 80 40 40 0 0) =
  targetOfCenters (finElement 1 90 90 20 20 0 0) (finElement 2 280 80 40 40 0 0).
Proof.
  split; [reflexivity |]. split; [reflexivity |].
  exact (targetOf_centers (spread DEFAULT_CONFIG emptyConfig) 1 2
           90 90 20 20 0 0 280 80 40 40 0 0 eq_refl eq_refl).
Defined.

Lemma getTargetPoint_anchor (config : Config xreal) (l t w h ox oy : R)
    (position : PositionType) :
  targetPositionOffset config = finPoint (ox, oy) ->
  getTargetPoint config (finRect l t w h) position =
  finPoint (fst (anchorOf position l t w h) + ox,
            snd (anchorOf position l t w h) + oy).
Proof.
  intros Hoff.
  destruct position; anchor_ops; rewrite Hoff;
    cbn [finPoint p_x p_y fst snd anchorOf]; rewrite ?add_fin; reflexivity.
Qed.

Lemma targetOf_anchor (config : Config xreal) (i j : nat)
    (sl st sw sh sx sy tl tt tw th tx ty ox oy : R) :
  targetPositionOffset config = finPoint (ox, oy) ->
  targetOf config (finElement i sl st sw sh sx sy) (finElement j tl tt tw th tx ty) =
  finPoint
    (sx + (fst (anchorOf (targetPosition config) tl tt tw th) + ox - (sl + sw / 2)),
     sy + (snd (anchorOf (targetPosition config) tl tt tw th) + oy - (st + sh / 2))).
Proof.
  intros Hoff. unfold targetOf.
  change (getBoundingClientRect (finElement j tl tt tw th tx ty))
    with (finRect tl tt tw th).
  rewrite (getTargetPoint_anchor config tl tt tw th (targetPosition config) Hoff).
  cbn [finElement getBoundingClientRect getProperty_x getProperty_y rect_left
       rect_top rect_width rect_height p_x p_y finPoint fst snd].
  cbn [nadd nsub nmul ndiv nneg lit JsNumber_xreal].
  rewrite !div_fin by (rewrite Q2R_2; lra).
  rewrite !add_fin, !sub_fin, !add_fin, Q2R_2. reflexivity.
Qed.

(** C6, as amended: when [swoopAmount] is 0 the hook computes no control
    point and the motion tween is the direct one, with [x], [y] and no
    motion path.  Its end value is the anchor-resolved target point carried
    into the translation space of the element: the current translation
    plus the vector from the centre of the source rectangle to the named
    point of the target rectangle moved by the offset.  It is that point
    itself exactly when the current translation is the centre of the
    source rectangle. *)
Theorem straight_line_ends_at_target_in_translation_space
    (c : FlyToTargetConfig xreal) (w : World xreal) (i j : nat)
    (sl st sw sh sx sy tl tt tw th tx ty ox oy : R) :
  swoopAmount (spread DEFAULT_CONFIG c) = Fin 0 ->
  targetPositionOffset (spread DEFAULT_CONFIG c) = finPoint (ox, oy) ->
  getTargetPoint (spread DEFAULT_CONFIG c) (finRect tl tt tw th)
    (targetPosition (spread DEFAULT_CONFIG c)) =
    finPoint
      (fst (anchorOf (targetPosition (spread DEFAULT_CONFIG c)) tl tt tw th) + ox,
       snd (anchorOf (targetPosition (spread DEFAULT_CONFIG c)) tl tt tw th) + oy) /\
  trace (snd (flyToTarget (Some (finElement i sl st sw sh sx sy))
                (Some (finElement j tl tt tw th tx ty)) c w)) =
    trace w ++ flight (spread DEFAULT_CONFIG c) (finElement i sl st sw sh sx sy)
                 (finElement j tl tt tw th tx ty) (timelines w) /\
  nth_error
    (flight (spread DEFAULT_CONFIG c) (finElement i sl st sw sh sx sy)
       (finElement j tl tt tw th tx ty) (timelines w)) 2 =
    Some (TimelineTo (timelines w) (finElement i sl st sw sh sx sy)
            {| v_duration := Some (motionDuration (spread DEFAULT_CONFIG c));
               v_ease := Some (motionEase (spread DEFAULT_CONFIG c));
               v_delay := None;
               v_x := Some (Fin (sx +
                 (fst (anchorOf (targetPosition (spread DEFAULT_CONFIG c))
                         tl tt tw th) + ox - (sl + sw / 2))));
               v_y := Some (Fin (sy +
                 (snd (anchorOf (targetPosition (spread DEFAULT_CONFIG c))
                         tl tt tw th) + oy - (st + sh / 2))));
               v_motionPath := None; v_scale := None; v_boxShadow := None |}
            (AtTime (lit 0))) /\
  ((sx + (fst (anchorOf (targetPosition (spread DEFAULT_CONFIG c)) tl tt tw th)
          + ox - (sl + sw / 2)),
    sy + (snd (anchorOf (targetPosition (spread DEFAULT_CONFIG c)) tl tt tw th)
          + oy - (st + sh / 2)))
   = (fst (anchorOf (targetPosition (spread DEFAULT_CONFIG c)) tl tt tw th) + ox,
      snd (anchorOf (targetPosition (spread DEFAULT_CONFIG c)) tl tt tw th) + oy)
   <-> (sx, sy) = (sl + sw / 2, st + sh / 2)).
Proof.
  intros Hs Hoff.
  assert (Hz : (swoopAmount (spread DEFAULT_CONFIG c) !== lit 0)%js = false).
  { rewrite Hs. cbn [strictNe lit JsNumber_xreal].
    apply ne_fin_false. rewrite Q2R_0. reflexivity. }
  destruct (straight_line_when_swoop_is_zero
              (finElement i sl st sw sh sx sy) (finElement j tl tt tw th tx ty)
              c w Hz) as (Htrace & Hnth & _).
  split; [apply getTargetPoint_anchor; exact Hoff |].
  split; [exact Htrace |].
  split.
  - rewrite Hnth.
    rewrite (targetOf_anchor (spread DEFAULT_CONFIG c) i j sl st sw sh sx sy
               tl tt tw th tx ty Hoff).
    reflexivity.
  - split; intros E; inversion E; f_equal; lra.
Qed.

Lemma straight_line_ends_at_target_in_translation_space_witness :
  swoopAmount (spread DEFAULT_CONFIG (withSwoopAmount emptyConfig (Fin 0))) = Fin 0 /\
  targetPositionOffset
    (spread DEFAULT_CONFIG (withSwoopAmount emptyConfig (Fin 0))) =
    finPoint (Q2R 0, Q2R 0) /\
  getTargetPoint (spread DEFAULT_CONFIG (withSwoopAmount emptyConfig (Fin 0)))
    (finRect 280 80 40 40)
    (targetPosition (spread DEFAULT_CONFIG (withSwoopAmount emptyConfig (Fin 0)))) =
    finPoint
      (fst (anchorOf
              (targetPosition
                 (spread DEFAULT_CONFIG (withSwoopAmount emptyConfig (Fin 0))))
              280 80 40 40) + Q2R 0,
       snd (anchorOf
              (targetPosition
                 (spread DEFAULT_CONFIG (withSwoopAmount emptyConfig (Fin 0))))
              280 80 40 40) + Q2R 0).
Proof.
  assert (Hs : swoopAmount
                 (spread DEFAULT_CONFIG (withSwoopAmount emptyConfig (Fin 0)))
               = Fin 0) by reflexivity.
  assert (Hoff : targetPositionOffset
                   (spread DEFAULT_CONFIG (withSwoopAmount emptyConfig (Fin 0)))
                 = finPoint (Q2R 0, Q2R 0)) by reflexivity.
  split; [exact Hs |]. split; [exact Hoff |].
  exact (proj1 (straight_line_ends_at_target_in_translation_space
                  (withSwoopAmount emptyConfig (Fin 0)) initial 1 2
                  90 90 20 20 0 0 280 80 40 40 0 0 Hs Hoff)).
Defined.

End TargetPoint.

(** C6, counterexample: the dart, not yet moved, flies in a straight line
    to the centre of the bullseye.  The resolved target point is
    (300, 100), the motion tween ends at [x] = 200, [y] = 0: the end value
    is not the anchor-resolved target point. *)
Lemma straight_line_end_is_not_the_anchor_point :
  (swoopAmount (spread DEFAULT_CONFIG (withSwoopAmount emptyConfig (lit 0 : F)))
     !== lit 0)%js = false /\
  getTargetPoint (spread DEFAULT_CONFIG (withSwoopAmount emptyConfig (lit 0 : F)))
    (getBoundingClientRect bullseye) center =
    {| p_x := lit 300; p_y := lit 100 |} /\
  nth_error
    (trace (snd (flyToTarget (Some dart) (Some bullseye)
                   (withSwoopAmount emptyConfig (lit 0 : F)) initial))) 2 =
    Some (TimelineTo 0%nat dart
            {| v_duration := Some (lit 0.45); v_ease := Some "power3.out"%string;
               v_delay := None; v_x := Some (lit 200); v_y := Some (lit 0);
               v_motionPath := None; v_scale := None; v_boxShadow := None |}
            (AtTime (lit 0))) /\
  ({| p_x := lit 200; p_y := lit 0 |} : Point F)
    <> {| p_x := lit 300; p_y := lit 100 |}.
Proof.
  repeat split; try (vm_compute; reflexivity).
  intros E.
  assert (X : PrimFloat.eqb
                (p_x ({| p_x := lit 200; p_y := lit 0 |} : Point F))
                (p_x ({| p_x := lit 300; p_y := lit 100 |} : Point F)) = true).
  { rewrite E. vm_compute. reflexivity. }
  vm_compute in X. discriminate X.
Qed.

(** ** More on the composed timeline *)

Section Tweens.

Context {T : Type} `{JsNumber T}.
Local Open Scope js_scope.

(** X11: A successful call invokes [onStart] exactly once, before it creates the
    timeline; [onComplete] is handed to the timeline and is not invoked by
    the call itself, and no other callback is. *)
Theorem onStart_fires_once_and_first (s t : HTMLElement T)
    (c : FlyToTargetConfig T) (w : World T) :
  exists rest : list (Event T),
    trace (snd (flyToTarget (Some s) (Some t) c w)) =
      trace w ++ Invoke (onStart (spread DEFAULT_CONFIG c))
              :: GsapTimeline (timelines w) (onComplete (spread DEFAULT_CONFIG c))
              :: rest /\
    invocations rest = [].
Proof.
  rewrite flyToTarget_run. cbn [snd trace]. unfold flight.
  destruct (scale (spread DEFAULT_CONFIG c)), (enableShadow (spread DEFAULT_CONFIG c));
    cbn [app]; eexists; (split; [reflexivity |]); reflexivity.
Qed.

(** X12: With [scale] off the call makes four calls and no more: [onStart], the
    new timeline, the motion tween, and one immediate [gsap.set] of the
    scale to [grabScale].  There is no scale tween and no shadow, even when
    [enableShadow] is on. *)
Theorem scale_off_sets_grab_scale_at_once (s t : HTMLElement T)
    (c : FlyToTargetConfig T) (w : World T) :
  scale (spread DEFAULT_CONFIG c) = false ->
  exists motion : TweenVars T,
    trace (snd (flyToTarget (Some s) (Some t) c w)) =
      trace w ++
      [ Invoke (onStart (spread DEFAULT_CONFIG c));
        GsapTimeline (timelines w) (onComplete (spread DEFAULT_CONFIG c));
        TimelineTo (timelines w) s motion (AtTime (lit 0));
        GsapSet s (set_scale noVars (grabScale (spread DEFAULT_CONFIG c))) ] /\
    v_scale motion = None /\
    v_boxShadow motion = None /\
    shadows (trace (snd (flyToTarget (Some s) (Some t) c w))) = shadows (trace w).
Proof.
  intros Hoff. rewrite flyToTarget_run. cbn [snd trace]. unfold flight.
  rewrite Hoff. cbn [app].
  eexists. split; [reflexivity |].
  split; [unfold motionConfig;
          destruct (swoopAmount (spread DEFAULT_CONFIG c) !== lit 0); reflexivity |].
  split; [apply motionConfig_shadow |].
  unfold shadows. rewrite flat_map_app. cbn [flat_map app].
  rewrite motionConfig_no_shadow. cbn [shadowOf set_scale noVars v_boxShadow app].
  apply app_nil_r.
Qed.

(** X13: The motion tween always leads from the current position to the target:
    either it carries the target as [x] and [y] (exactly when
    [swoopAmount !== 0] fails), or it carries a path of three points whose
    first is the current position and whose last is the target, never
    both.  Its duration and ease are [motionDuration] and [motionEase] in
    both cases, and it has no delay. *)
Theorem motion_tween_leads_to_the_target (config : Config T) (cx cy tx ty : T) :
  v_duration (motionConfig config cx cy tx ty) = Some (motionDuration config) /\
  v_ease (motionConfig config cx cy tx ty) = Some (motionEase config) /\
  v_delay (motionConfig config cx cy tx ty) = None /\
  match v_motionPath (motionConfig config cx cy tx ty) with
  | Some mp =>
      (swoopAmount config !== lit 0) = true /\
      v_x (motionConfig config cx cy tx ty) = None /\
      v_y (motionConfig config cx cy tx ty) = None /\
      List.length (path mp) = 3%nat /\
      nth_error (path mp) 0 = Some {| p_x := cx; p_y := cy |} /\
      nth_error (path mp) 2 = Some {| p_x := tx; p_y := ty |}
  | None =>
      (swoopAmount config !== lit 0) = false /\
      v_x (motionConfig config cx cy tx ty) = Some tx /\
      v_y (motionConfig config cx cy tx ty) = Some ty
  end.
Proof.
  unfold motionConfig.
  destruct (swoopAmount config !== lit 0); cbn; repeat split.
Qed.

(** The whole schedule of a flight, as GSAP places it. *)
Lemma schedule_of_flight_full (s t : HTMLElement T) (c : FlyToTargetConfig T) :
  let config := spread DEFAULT_CONFIG c in
  schedule 0%nat (snd (flyToTarget (Some s) (Some t) c initial)) =
  (lit 0 + lit 0, lit 0 + lit 0 + motionDuration config)
  :: (if scale config then
        [ (lit 0 + scaleStartDelay config,
           lit 0 + scaleStartDelay config + scaleUpDuration config);
          (lit 0 + scaleStartDelay config + scaleUpDuration config
           + (scaleStartDelay config + scaleUpDuration config)
           + scalePause config,
           lit 0 + scaleStartDelay config + scaleUpDuration config
           + (scaleStartDelay config + scaleUpDuration config)
           + scalePause config + scaleDownDuration config) ]
      else []).
Proof.
  intros config. rewrite flyToTarget_run.
  unfold schedule. cbn [snd trace app initial timelines].
  unfold flight. fold config.
  pose proof (motionConfig_timing config (getProperty_x s) (getProperty_y s)
                (p_x (targetOf config s t)) (p_y (targetOf config s t)))
    as [Hd Hdur].
  unfold scaleConfig, scaleDownConfig.
  destruct (scale config), (enableShadow config);
    cbn [app children Nat.eqb place];
    unfold endTime, startTime; cbn [c_vars c_position];
    rewrite Hd, Hdur; reflexivity.
Qed.

(** Under the placement rule [startTime], [motionDuration] enters the
    schedule only as the end of the motion tween. *)
Lemma schedule_ignores_motionDuration (s t : HTMLElement T)
    (c : FlyToTargetConfig T) (a : T) :
  map fst (schedule 0%nat
             (snd (flyToTarget (Some s) (Some t) (withMotionDuration c a) initial))) =
  map fst (schedule 0%nat (snd (flyToTarget (Some s) (Some t) c initial))) /\
  skipn 1 (schedule 0%nat
             (snd (flyToTarget (Some s) (Some t) (withMotionDuration c a) initial))) =
  skipn 1 (schedule 0%nat (snd (flyToTarget (Some s) (Some t) c initial))) /\
  nth_error
    (map snd (schedule 0%nat
                (snd (flyToTarget (Some s) (Some t) (withMotionDuration c a) initial))))
    0 = Some (lit 0 + lit 0 + a).
Proof.
  rewrite !schedule_of_flight_full.
  cbn [spread withMotionDuration orDefault scale scaleStartDelay scaleUpDuration
       scalePause scaleDownDuration motionDuration opt_scale opt_scaleStartDelay
       opt_scaleUpDuration opt_scalePause opt_scaleDownDuration
       opt_motionDuration map fst snd skipn nth_error].
  repeat split.
Qed.

End Tweens.

Lemma scale_off_sets_grab_scale_at_once_witness :
  scale (spread DEFAULT_CONFIG
           {| opt_motionDuration := None; opt_motionEase := None;
              opt_swoopAmount := None; opt_targetPosition := None;
              opt_targetPositionOffset := None; opt_scale := Some false;
              opt_grabScale := None; opt_scaleStartDelay := None;
              opt_scaleUpDuration := None; opt_scaleUpEase := None;
              opt_scalePeak := None; opt_scalePause := None;
              opt_scaleDownDuration := None; opt_scaleDownEase := None;
              opt_scaleTarget := None; opt_enableShadow := None;
              opt_baseShadowBlur := None; opt_onComplete := None;
              opt_onStart := None |} : Config F) = false /\
  exists motion : TweenVars F,
    v_scale motion = None /\ v_boxShadow motion = None.
Proof.
  split; [reflexivity |].
  destruct (scale_off_sets_grab_scale_at_once dart bullseye
              {| opt_motionDuration := None; opt_motionEase := None;
                 opt_swoopAmount := None; opt_targetPosition := None;
                 opt_targetPositionOffset := None; opt_scale := Some false;
                 opt_grabScale := None; opt_scaleStartDelay := None;
                 opt_scaleUpDuration := None; opt_scaleUpEase := None;
                 opt_scalePeak := None; opt_scalePause := None;
                 opt_scaleDownDuration := None; opt_scaleDownEase := None;
                 opt_scaleTarget := None; opt_enableShadow := None;
                 opt_baseShadowBlur := None; opt_onComplete := None;
                 opt_onStart := None |} (@initial F) eq_refl)
    as (motion & _ & Hs & Hb & _).
  exists motion. split; assumption.
Defined.

(** ** More on the registry *)

Section Handles.

Context {T : Type} `{JsNumber T}.

Lemma sorted_snoc (l : list nat) (n : nat) :
  StronglySorted lt l -> Forall (fun a => a < n)%nat l ->
  StronglySorted lt (l ++ [n]).
Proof.
  induction l as [| a l IH]; intros Hs Hb; simpl.
  - constructor; constructor.
  - inversion Hs as [| a' l' Hs' Ha]; subst.
    inversion Hb as [| a' l' Han Hb']; subst.
    constructor; [apply IH; assumption |].
    apply Forall_app. split; [exact Ha | constructor; [exact Han | constructor]].
Qed.

Lemma sorted_filter (f : nat -> bool) (l : list nat) :
  StronglySorted lt l -> StronglySorted lt (filter f l).
Proof.
  induction l as [| a l IH]; intros Hs; simpl; [constructor |].
  inversion Hs as [| a' l' Hs' Ha]; subst.
  destruct (f a); [| apply IH; exact Hs'].
  constructor; [apply IH; exact Hs' |].
  apply Forall_forall. intros x Hx. apply filter_In in Hx as [Hx _].
  rewrite Forall_forall in Ha. apply Ha. exact Hx.
Qed.

Lemma bounded_filter (f : nat -> bool) (n : nat) (l : list nat) :
  Forall (fun a => a < n)%nat l -> Forall (fun a => a < n)%nat (filter f l).
Proof.
  intros Hb. apply Forall_forall. intros x Hx.
  apply filter_In in Hx as [Hx _]. rewrite Forall_forall in Hb. apply Hb. exact Hx.
Qed.

Lemma sorted_NoDup (l : list nat) : StronglySorted lt l -> NoDup l.
Proof.
  induction l as [| a l IH]; intros Hs; [constructor |].
  inversion Hs as [| a' l' Hs' Ha]; subst.
  constructor; [| apply IH; exact Hs'].
  intros Hin. rewrite Forall_forall in Ha. apply Ha in Hin. lia.
Qed.

Lemma live_In (tl : Timeline) (w : World T) :
  live tl w = true <-> In tl (activeAnimationsRef w).
Proof.
  unfold live. rewrite existsb_exists. split.
  - intros (x & Hx & E). apply Nat.eqb_eq in E. subst. exact Hx.
  - intros Hin. exists tl. split; [exact Hin | apply Nat.eqb_refl].
Qed.

Lemma wellNumbered_initial : wellNumbered (@initial T).
Proof.
  split; [intros tl; reflexivity |]. split; constructor.
Qed.

Lemma wellNumbered_step (w : World T) (op : Op T) :
  wellNumbered w -> wellNumbered (step w op).
Proof.
  intros (Hstart & Hsort & Hbound).
  destruct op as [s t c | [tl0 |] | | tl0]; cbn [step].
  - destruct s as [s |]; [destruct t as [t |] |];
      try (rewrite flyToTarget_null by auto; unfold wellNumbered, started in *;
           cbn [snd warned trace activeAnimationsRef timelines];
           split; [intros tl; rewrite existsb_app; simpl;
                   rewrite orb_false_r; apply Hstart |];
           split; assumption).
    rewrite flyToTarget_run.
    unfold wellNumbered, started in *.
    cbn [snd trace activeAnimationsRef timelines].
    split; [| split].
    + intros tl. rewrite existsb_app, flight_creates, Hstart.
      destruct (Nat.eqb_spec (timelines w) tl), (Nat.ltb_spec tl (timelines w)),
        (Nat.ltb_spec tl (S (timelines w))); simpl; try reflexivity; lia.
    + apply sorted_snoc; assumption.
    + apply Forall_app. split.
      * eapply Forall_impl; [| exact Hbound]. simpl. intros a Ha. lia.
      * constructor; [lia | constructor].
  - rewrite kill_run. unfold wellNumbered, started in *.
    cbn [snd trace activeAnimationsRef timelines].
    split; [| split].
    + intros tl. rewrite existsb_app. simpl. rewrite orb_false_r. apply Hstart.
    + apply sorted_filter. exact Hsort.
    + apply bounded_filter. exact Hbound.
  - split; [exact Hstart |]. split; assumption.
  - rewrite killAll_run. unfold wellNumbered, started in *.
    cbn [snd trace activeAnimationsRef timelines].
    split; [| split; constructor].
    intros tl. rewrite existsb_app, kills_create_nothing, orb_false_r. apply Hstart.
  - rewrite complete_run. unfold wellNumbered, started in *.
    cbn [snd trace activeAnimationsRef timelines].
    split; [| split; assumption].
    intros tl. rewrite existsb_app. simpl. rewrite orb_false_r. apply Hstart.
Qed.

Lemma wellNumbered_run (ops : list (Op T)) (w : World T) :
  wellNumbered w -> wellNumbered (run ops w).
Proof.
  revert w. induction ops as [| op ops IH]; intros w Hw; simpl; [exact Hw |].
  apply IH, wellNumbered_step, Hw.
Qed.

(** X16: Whatever is done with the hook, the list holds each timeline at most
    once, in the order of creation, and only timelines this hook has
    created. *)
Theorem registry_lists_timelines_in_creation_order (ops : list (Op T)) :
  StronglySorted lt (activeAnimationsRef (run ops (@initial T))) /\
  NoDup (activeAnimationsRef (run ops (@initial T))) /\
  (forall tl, live tl (run ops (@initial T)) = true ->
              started tl (run ops (@initial T)) = true).
Proof.
  destruct (wellNumbered_run ops wellNumbered_initial) as (Hstart & Hsort & Hbound).
  split; [exact Hsort |]. split; [apply sorted_NoDup; exact Hsort |].
  intros tl Hl. apply live_In in Hl.
  rewrite Hstart. apply Nat.ltb_lt.
  rewrite Forall_forall in Hbound. apply Hbound. exact Hl.
Qed.

Lemma kills_of_sorted (tl : Timeline) (l : list Timeline) :
  StronglySorted lt l ->
  List.length (filter (isKill tl) (map (@TimelineKill T) l)) =
  if existsb (Nat.eqb tl) l then 1%nat else 0%nat.
Proof.
  induction l as [| a l IH]; intros Hs; [reflexivity |].
  inversion Hs as [| a' l' Hs' Ha]; subst.
  cbn [map filter isKill existsb]. rewrite (Nat.eqb_sym a tl).
  destruct (Nat.eqb_spec tl a) as [-> | Hne]; cbn [orb Datatypes.length].
  - rewrite IH by exact Hs'.
    destruct (existsb (Nat.eqb a) l) eqn:E; [| reflexivity].
    apply existsb_exists in E as (x & Hx & Ex). apply Nat.eqb_eq in Ex. subst x.
    rewrite Forall_forall in Ha. apply Ha in Hx. lia.
  - apply IH. exact Hs'.
Qed.

(** X17: [killAll] invokes [kill()] exactly once on every timeline of the list
    and on no other timeline. *)
Theorem killAll_kills_each_live_timeline_once (ops : list (Op T)) (tl : Timeline) :
  kills tl (snd (killAll (run ops (@initial T)))) =
  (kills tl (run ops (@initial T))
   + (if live tl (run ops (@initial T)) then 1 else 0))%nat.
Proof.
  destruct (wellNumbered_run ops wellNumbered_initial) as (_ & Hsort & _).
  rewrite killAll_run. unfold kills, live. cbn [snd trace].
  rewrite filter_app, length_app, kills_of_sorted by exact Hsort.
  reflexivity.
Qed.

(** X18: Cancelling two timelines through [kill] leaves the same list in either
    order, cancelling one twice leaves the list of cancelling it once, and
    nothing but the two is removed. *)
Theorem kill_order_does_not_matter (a b : Timeline) (w : World T) :
  activeAnimationsRef (snd (kill (Some b) (snd (kill (Some a) w)))) =
  activeAnimationsRef (snd (kill (Some a) (snd (kill (Some b) w)))) /\
  activeAnimationsRef (snd (kill (Some a) (snd (kill (Some a) w)))) =
  activeAnimationsRef (snd (kill (Some a) w)) /\
  (forall tl,
     live tl (snd (kill (Some b) (snd (kill (Some a) w)))) =
     live tl w && negb (Nat.eqb tl a) && negb (Nat.eqb tl b)).
Proof.
  rewrite !kill_run. cbn [snd activeAnimationsRef].
  assert (Hcomm : forall (f g : nat -> bool) (l : list nat),
            filter f (filter g l) = filter g (filter f l)).
  { intros f g l. induction l as [| x l IH]; simpl; [reflexivity |].
    destruct (g x) eqn:Eg, (f x) eqn:Ef; simpl; rewrite ?Eg, ?Ef, IH; reflexivity. }
  assert (Hidem : forall (f : nat -> bool) (l : list nat),
            filter f (filter f l) = filter f l).
  { intros f l. induction l as [| x l IH]; simpl; [reflexivity |].
    destruct (f x) eqn:Ef; simpl; rewrite ?Ef, IH; reflexivity. }
  split; [apply Hcomm |]. split; [apply Hidem |].
  intros tl. unfold live. cbn [activeAnimationsRef].
  rewrite !existsb_without. reflexivity.
Qed.

Lemma flight_invokes_no_kill (cfg : Config T) (s t : HTMLElement T)
    (n tl : Timeline) :
  filter (isKill tl) (flight cfg s t n) = [].
Proof.
  unfold flight. destruct (scale cfg), (enableShadow cfg); reflexivity.
Qed.

(** X19: A successful call returns a timeline that did not exist before, puts it
    at the end of the list and leaves every other animation alone: it
    invokes [kill()] on none, reports none completed, and every timeline of
    the list stays in it. *)
Theorem flight_adds_one_fresh_timeline (ops : list (Op T))
    (s t : HTMLElement T) (c : FlyToTargetConfig T) :
  fst (flyToTarget (Some s) (Some t) c (run ops initial)) =
    Some (timelines (run ops initial)) /\
  started (timelines (run ops initial)) (run ops initial) = false /\
  live (timelines (run ops initial)) (run ops initial) = false /\
  activeAnimationsRef (snd (flyToTarget (Some s) (Some t) c (run ops initial))) =
    activeAnimationsRef (run ops initial) ++ [timelines (run ops initial)] /\
  (forall tl,
     kills tl (snd (flyToTarget (Some s) (Some t) c (run ops initial))) =
     kills tl (run ops initial)) /\
  (forall tl,
     completed tl (snd (flyToTarget (Some s) (Some t) c (run ops initial))) =
     completed tl (run ops initial)) /\
  (forall tl,
     live tl (run ops initial) = true ->
     live tl (snd (flyToTarget (Some s) (Some t) c (run ops initial))) = true).
Proof.
  destruct (wellNumbered_run ops wellNumbered_initial) as (Hstart & _ & Hbound).
  set (w := run ops initial) in *.
  rewrite flyToTarget_run. cbn [fst snd].
  split; [reflexivity |].
  split; [rewrite Hstart; apply Nat.ltb_irrefl |].
  split.
  { destruct (live (timelines w) w) eqn:E; [| reflexivity].
    apply live_In in E. rewrite Forall_forall in Hbound. apply Hbound in E. lia. }
  split; [reflexivity |].
  split; [| split].
  - intros tl. unfold kills. cbn [trace].
    rewrite filter_app, flight_invokes_no_kill, app_nil_r. reflexivity.
  - intros tl. unfold completed. cbn [trace].
    rewrite existsb_app, flight_completes_nothing, orb_false_r. reflexivity.
  - intros tl Hl. unfold live in *. cbn [activeAnimationsRef].
    rewrite existsb_app. apply orb_true_iff. left. exact Hl.
Qed.

Lemma trace_grows_step (w : World T) (op : Op T) :
  exists more, trace (step w op) = trace w ++ more.
Proof.
  destruct op as [s t c | [tl0 |] | | tl0]; cbn [step].
  - destruct s as [s |]; [destruct t as [t |] |];
      try (rewrite flyToTarget_null by auto; eexists; reflexivity).
    rewrite flyToTarget_run. eexists; reflexivity.
  - rewrite kill_run. eexists; reflexivity.
  - exists []. symmetry. apply app_nil_r.
  - rewrite killAll_run. eexists; reflexivity.
  - rewrite complete_run. eexists; reflexivity.
Qed.

Lemma trace_grows (ops : list (Op T)) (w : World T) :
  exists more, trace (run ops w) = trace w ++ more.
Proof.
  revert w. induction ops as [| op ops IH]; intros w; simpl.
  - exists []. symmetry. apply app_nil_r.
  - destruct (IH (step w op)) as [more2 E2].
    destruct (trace_grows_step w op) as [more1 E1].
    exists (more1 ++ more2). rewrite E2, E1, app_assoc. reflexivity.
Qed.

Lemma onCompleteOf_app (tl : Timeline) (l1 l2 : list (Event T)) :
  onCompleteOf tl (l1 ++ l2) =
  if existsb (isCreation tl) l1 then onCompleteOf tl l1 else onCompleteOf tl l2.
Proof.
  induction l1 as [| e l1 IH]; [reflexivity |].
  destruct e; cbn [app onCompleteOf existsb isCreation orb]; try exact IH.
  destruct (Nat.eqb tl0 tl); [reflexivity | exact IH].
Qed.

(** X20: When the engine reports a flight's timeline completed, however many
    other calls were made before and after the flight, the callback that is
    invoked is the [onComplete] given to that flight (the default no-op if
    none was given) and no other flight's. *)
Theorem completion_invokes_the_flights_own_callback (before after : list (Op T))
    (s t : HTMLElement T) (c : FlyToTargetConfig T) :
  trace (snd (complete (timelines (run before initial))
                (run after (snd (flyToTarget (Some s) (Some t) c
                                   (run before initial)))))) =
  trace (run after (snd (flyToTarget (Some s) (Some t) c (run before initial))))
  ++ [ TimelineComplete (timelines (run before initial));
       Invoke (orDefault noop (opt_onComplete c)) ].
Proof.
  destruct (wellNumbered_run before wellNumbered_initial) as (Hstart & _ & _).
  set (w := run before initial) in *.
  rewrite complete_run. cbn [snd trace]. do 3 f_equal.
  destruct (trace_grows after (snd (flyToTarget (Some s) (Some t) c w)))
    as [more ->].
  rewrite flyToTarget_run. cbn [snd trace].
  rewrite <- app_assoc, onCompleteOf_app.
  specialize (Hstart (timelines w)). unfold started in Hstart.
  rewrite Hstart, Nat.ltb_irrefl.
  rewrite onCompleteOf_app, flight_creates, Nat.eqb_refl.
  unfold flight. cbn [app onCompleteOf]. rewrite Nat.eqb_refl.
  reflexivity.
Qed.

End Handles.

(** ** The schedule on the engine's time grid *)

Section GridSchedule.

Local Open Scope R_scope.

(** X15: with [scale] on and timings that are finite, non-negative and on
    the engine's grid of 0.0000001 s, GSAP ends the scale-up tween at
    [scaleStartDelay + scaleUpDuration] and starts the scale-down tween at
    [2 * (scaleStartDelay + scaleUpDuration) + scalePause]. *)
Theorem scale_down_start_on_grid (s t : HTMLElement xreal)
    (c : FlyToTargetConfig xreal) :
  scale (spread DEFAULT_CONFIG c) = true ->
  gridTimings (spread DEFAULT_CONFIG c) ->
  exists ssd sud sp : R,
    scaleStartDelay (spread DEFAULT_CONFIG c) = Fin ssd /\
    scaleUpDuration (spread DEFAULT_CONFIG c) = Fin sud /\
    scalePause (spread DEFAULT_CONFIG c) = Fin sp /\
    0 <= ssd /\ 0 <= sud /\ 0 <= sp /\
    nth_error
      (map snd (schedule 0%nat (snd (flyToTarget (Some s) (Some t) c initial)))) 1 =
      Some (Fin (ssd + sud)) /\
    nth_error
      (map fst (schedule 0%nat (snd (flyToTarget (Some s) (Some t) c initial)))) 2 =
      Some (Fin (2 * (ssd + sud) + sp)).
Proof.
  intros Hscale (_ & (k1 & Hk1 & E1) & (k2 & Hk2 & E2) & (k3 & Hk3 & E3) & _).
  exists (IZR k1 / 10000000), (IZR k2 / 10000000), (IZR k3 / 10000000).
  apply IZR_le in Hk1, Hk2, Hk3.
  split; [exact E1 |]. split; [exact E2 |]. split; [exact E3 |].
  split; [lra |]. split; [lra |]. split; [lra |].
  rewrite schedule_of_flight_full, Hscale, E1, E2, E3.
  cbn [map fst snd nth_error nadd lit JsNumber_xreal].
  rewrite !add_fin, Q2R_0.
  split; apply (f_equal Some), (f_equal Fin); lra.
Qed.

Lemma defaults_on_grid : gridTimings (spread DEFAULT_CONFIG (@emptyConfig xreal)).
Proof.
  repeat split.
  - exists 4500000%Z. split; [lia |]. apply (f_equal Fin). unfold Q2R; simpl; lra.
  - exists 0%Z. split; [lia |]. apply (f_equal Fin). unfold Q2R; simpl; lra.
  - exists 2000000%Z. split; [lia |]. apply (f_equal Fin). unfold Q2R; simpl; lra.
  - exists 1500000%Z. split; [lia |]. apply (f_equal Fin). unfold Q2R; simpl; lra.
  - exists 1000000%Z. split; [lia |]. apply (f_equal Fin). unfold Q2R; simpl; lra.
Defined.

Lemma scale_down_start_on_grid_witness :
  scale (spread DEFAULT_CONFIG (@emptyConfig xreal)) = true /\
  gridTimings (spread DEFAULT_CONFIG (@emptyConfig xreal)) /\
  exists ssd sud sp : R,
    scaleStartDelay (spread DEFAULT_CONFIG (@emptyConfig xreal)) = Fin ssd /\
    scaleUpDuration (spread DEFAULT_CONFIG (@emptyConfig xreal)) = Fin sud /\
    scalePause (spread DEFAULT_CONFIG (@emptyConfig xreal)) = Fin sp /\
    0 <= ssd /\ 0 <= sud /\ 0 <= sp /\
    nth_error
      (map snd (schedule 0%nat
                  (snd (flyToTarget (Some dart) (Some bullseye) emptyConfig
                          initial)))) 1 =
      Some (Fin (ssd + sud)) /\
    nth_error
      (map fst (schedule 0%nat
                  (snd (flyToTarget (Some dart) (Some bullseye) emptyConfig
                          initial)))) 2 =
      Some (Fin (2 * (ssd + sud) + sp)).
Proof.
  split; [reflexivity |]. split; [exact defaults_on_grid |].
  exact (@scale_down_start_on_grid dart bullseye emptyConfig eq_refl
           defaults_on_grid).
Defined.

(** X14: for timings that are finite, non-negative and on the engine's grid,
    replacing [motionDuration] by another such value moves nothing but the
    end of the motion tween, which becomes that value: every tween starts
    when it did, and the scale-up and scale-down tweens also end when they
    did. *)
Theorem motionDuration_moves_only_the_motion_end (s t : HTMLElement xreal)
    (c : FlyToTargetConfig xreal) (a : xreal) :
  gridTimings (spread DEFAULT_CONFIG c) ->
  gridTime a ->
  map fst (schedule 0%nat
             (snd (flyToTarget (Some s) (Some t) (withMotionDuration c a) initial))) =
  map fst (schedule 0%nat (snd (flyToTarget (Some s) (Some t) c initial))) /\
  skipn 1 (schedule 0%nat
             (snd (flyToTarget (Some s) (Some t) (withMotionDuration c a) initial))) =
  skipn 1 (schedule 0%nat (snd (flyToTarget (Some s) (Some t) c initial))) /\
  nth_error
    (map snd (schedule 0%nat
                (snd (flyToTarget (Some s) (Some t) (withMotionDuration c a) initial))))
    0 = Some a.
Proof.
  intros _ (k & _ & ->).
  destruct (schedule_ignores_motionDuration s t c (Fin (IZR k / 10000000)))
    as (Hstarts & Hrest & Hend).
  split; [exact Hstarts |]. split; [exact Hrest |].
  rewrite Hend. cbn [nadd lit JsNumber_xreal]. rewrite !add_fin, Q2R_0.
  apply (f_equal Some), (f_equal Fin). lra.
Qed.

Lemma motionDuration_moves_only_the_motion_end_witness :
  gridTimings (spread DEFAULT_CONFIG (@emptyConfig xreal)) /\
  gridTime (Fin (IZR 30000000 / 10000000)) /\
  nth_error
    (map snd (schedule 0%nat
                (snd (flyToTarget (Some dart) (Some bullseye)
                        (withMotionDuration emptyConfig
                           (Fin (IZR 30000000 / 10000000))) initial))))
    0 = Some (Fin (IZR 30000000 / 10000000)).
Proof.
  assert (Ha : gridTime (Fin (IZR 30000000 / 10000000))).
  { exists 30000000%Z. split; [lia | reflexivity]. }
  split; [exact defaults_on_grid |]. split; [exact Ha |].
  exact (proj2 (proj2 (@motionDuration_moves_only_the_motion_end
                         dart bullseye emptyConfig _ defaults_on_grid Ha))).
Defined.

End GridSchedule.
